(** * ChangeStreamTester (change.py): a shallow embedding and its properties

    The program drives a MongoDB collection through pymongo: it opens change
    streams, inserts documents, iterates the streams and resumes them from a
    resume token.  The collection, the streams, the clock and [time.sleep]
    are the program's environment; the methods of [ChangeStreamTester] are
    embedded as functions over an explicit world state, in a monad whose
    outcomes are: the call returned, the call raised an exception (an
    instance of [Exception] or, like [KeyboardInterrupt], of
    [BaseException] only), or the call never returns (iterating a live
    stream with nothing to deliver).

    Left out: the [logger] calls and the read of [resume_token] on line 28,
    whose value is only logged (they neither touch the collection nor
    raise), and [__init__], which only stores the collection handle. *)

From Stdlib Require Import ZArith List String Bool Lia DecimalString.
From Equations.Prop Require Import Equations Logic.
Import ListNotations.
Open Scope string_scope.
Open Scope list_scope.
Open Scope Z_scope.

(** ** Python values used by the program *)

(** The values stored under the keys of the inserted documents. *)
Inductive value : Type :=
| VInt (n : Z)
| VStr (s : string)
| VTime (t : Z).

(** A document: a dict literal, as key/value pairs in source order. *)
Definition doc : Type := list (string * value).

(** A raised exception: the name of its class, its message ([str(e)]) and
    whether the class derives from [Exception].  [KeyboardInterrupt] and
    [SystemExit] derive from [BaseException] only. *)
Record exn : Type := mk_exn {
  exn_class : string;
  exn_msg : string;
  is_exception : bool
}.

(** What Ctrl-C raises in the running method. *)
Definition KeyboardInterrupt : exn := mk_exn "KeyboardInterrupt" "" false.

Definition str (e : exn) : string := exn_msg e.

(** [len(xs)], a Python int. *)
Definition len {A : Type} (xs : list A) : Z := Z.of_nat (List.length xs).

(** [range(n)]: empty when [n <= 0]. *)
Definition range (n : Z) : list Z := map Z.of_nat (seq 0 (Z.to_nat n)).

(** [f"{i}"] for an int. *)
Definition fmt_int (i : Z) : string := NilZero.string_of_int (Z.to_int i).

(** ** Outcomes and the monad of the methods *)

(** How a call ends: it returns a value, it raises, or it never comes back
    ([Blocked]); the first two leave a world behind. *)
Inductive outcome (W A : Type) : Type :=
| Returned (a : A) (w : W)
| Raised (e : exn) (w : W)
| Blocked.
Arguments Returned {W A} a w.
Arguments Raised {W A} e w.
Arguments Blocked {W A}.

Definition M (W A : Type) : Type := W -> outcome W A.

Definition ret {W A : Type} (a : A) : M W A := fun w => Returned a w.

Definition bind {W A B : Type} (m : M W A) (k : A -> M W B) : M W B :=
  fun w =>
    match m w with
    | Returned a w1 => k a w1
    | Raised e w1 => Raised e w1
    | Blocked => Blocked
    end.

(** [try: m  except Exception as e: h e]: the handler takes the instances
    of [Exception]; any other exception goes on to the caller. *)
Definition try_except {W A : Type} (m : M W A) (h : exn -> M W A) : M W A :=
  fun w =>
    match m w with
    | Returned a w1 => Returned a w1
    | Raised e w1 => if is_exception e then h e w1 else Raised e w1
    | Blocked => Blocked
    end.

Notation "x <- m ;; k" := (bind m (fun x => k))
  (at level 61, m at next level, right associativity).
Notation "' pat <- m ;; k" := (bind m (fun x => match x with pat => k end))
  (at level 61, pat pattern, m at next level, right associativity).
Notation "m ;;; k" := (bind m (fun _ => k))
  (at level 61, right associativity).

(** [for x in xs: body x] over a finite list, no [break]. *)
Fixpoint for_each {W A : Type} (xs : list A) (body : A -> M W unit) : M W unit :=
  match xs with
  | [] => ret tt
  | x :: rest => body x ;;; for_each rest body
  end.

(** [ends m w w']: run in [w], [m] comes back, by returning or by raising,
    and leaves the world [w']. *)
Definition ends {W A : Type} (m : M W A) (w w' : W) : Prop :=
  (exists a, m w = Returned a w') \/ (exists e, m w = Raised e w').

(** [respects R m]: however [m] comes back, the worlds before and after
    are related by [R]. *)
Definition respects {W A : Type} (R : W -> W -> Prop) (m : M W A) : Prop :=
  forall w w', ends m w w' -> R w w'.

(** ** The environment: what the program calls

    [W] is the state of everything outside the program, [S] a change-stream
    object, [T] a resume token, [E] a change event. *)
Record Env (W S T E : Type) : Type := mk_env {
  (** [collection.drop()] *)
  drop : M W unit;
  (** [collection.create_index(key)] *)
  create_index : string -> M W unit;
  (** [collection.watch()] and [collection.watch(resume_after=t)] *)
  watch : option T -> M W S;
  (** [collection.insert_one(d)] *)
  insert_one : doc -> M W unit;
  (** [stream.__next__()]: [None] stands for [StopIteration] *)
  next : S -> M W (option E);
  (** the property [stream.resume_token] *)
  resume_token : S -> W -> T;
  (** [stream.close()] *)
  close : S -> M W unit;
  (** [datetime.now()] *)
  now : W -> Z;
  (** [time.sleep(seconds)] *)
  sleep : Z -> M W unit
}.
Arguments drop {W S T E}.
Arguments create_index {W S T E}.
Arguments watch {W S T E}.
Arguments insert_one {W S T E}.
Arguments next {W S T E}.
Arguments resume_token {W S T E}.
Arguments close {W S T E}.
Arguments now {W S T E}.
Arguments sleep {W S T E}.

(** ** Result objects *)

(** The dict returned by [test_resume_token_persistence]. *)
Record resume_result : Type := mk_resume_result {
  initial_events : Z;
  resumed_events : Z;
  success : bool
}.

(** The dict returned by [test_stream_durability]; the key ["error"] is
    present on the [except] path only. *)
Record durability_result : Type := mk_durability_result {
  pre_disconnect_events : Z;
  post_disconnect_events : Z;
  d_success : bool;
  error : option string
}.

(** The dict returned by [run_all_tests]. *)
Record results : Type := mk_results {
  resume_token_test : resume_result;
  durability_test : durability_result
}.

(** ** The methods of ChangeStreamTester *)

Section Tester.
Context {W S T E : Type}.
Variable env : Env W S T E.

(** [datetime.now()] read inside an expression. *)
Definition get_now : M W Z := fun w => Returned (now env w) w.

(** [stream.resume_token] read inside an expression. *)
Definition get_resume_token (cs : S) : M W T :=
  fun w => Returned (resume_token env cs w) w.

Definition setup : M W unit :=
  drop env ;;;
  create_index env "_id".

(** The loop
    [for change in stream: events.append(change);
                           if len(events) >= iterations: break]
    started with the buffer [events]. *)
Equations? collect (cs : S) (iterations : Z) (events : list E) (w : W)
  : outcome W (list E)
  by wf (Z.to_nat (iterations - len events)) lt :=
collect cs iterations events w with next env cs w := {
  | Returned (Some change) w1 with inspect (len (events ++ [change]) >=? iterations) := {
      | exist _ true Hbreak => Returned (events ++ [change]) w1
      | exist _ false Hbreak => collect cs iterations (events ++ [change]) w1 };
  | Returned None w1 => Returned events w1;
  | Raised e w1 => Raised e w1;
  | Blocked => Blocked }.
Proof.
  unfold len in *. rewrite length_app in *. simpl in *.
  rewrite Z.geb_leb in Hbreak. apply Z.leb_gt in Hbreak. lia.
Qed.

(** [pulled cs w evs w']: successive [next] calls on [cs], started in
    [w], deliver the events [evs] one by one and leave the world [w']. *)
Inductive pulled (cs : S) : W -> list E -> W -> Prop :=
| pulled_nil w : pulled cs w [] w
| pulled_cons w c w1 evs w2 :
    next env cs w = Returned (Some c) w1 ->
    pulled cs w1 evs w2 ->
    pulled cs w (c :: evs) w2.

(** The loop [for change in stream: events.append(change); break]. *)
Definition first_event (cs : S) : M W (list E) :=
  r <- next env cs ;;
  match r with
  | Some change => ret [change]
  | None => ret []
  end.

(** The dict literals handed to [insert_one]. *)
Definition initial_doc (i t : Z) : doc :=
  [("test", VInt i); ("timestamp", VTime t)].

Definition resumed_doc (i t : Z) : doc :=
  [("test", VStr (String.append "resumed_" (fmt_int i))); ("timestamp", VTime t)].

Definition pre_disconnect_doc (t : Z) : doc :=
  [("phase", VStr "pre-disconnect"); ("timestamp", VTime t)].

Definition post_disconnect_doc (t : Z) : doc :=
  [("phase", VStr "post-disconnect"); ("timestamp", VTime t)].

(** [test_resume_token_persistence] up to its [return]: the two buffers
    [events] and [new_events]. *)
Definition resume_token_events (iterations : Z) : M W (list E * list E) :=
  change_stream <- watch env None ;;
  for_each (range iterations) (fun i =>
    t <- get_now ;;
    insert_one env (initial_doc i t)) ;;;
  events <- collect change_stream iterations [] ;;
  last_resume_token <- get_resume_token change_stream ;;
  close env change_stream ;;;
  resumed_stream <- watch env (Some last_resume_token) ;;
  for_each (range iterations) (fun i =>
    t <- get_now ;;
    insert_one env (resumed_doc i t)) ;;;
  new_events <- collect resumed_stream iterations [] ;;
  close env resumed_stream ;;;
  ret (events, new_events).

Definition test_resume_token_persistence (iterations : Z) : M W resume_result :=
  '(events, new_events) <- resume_token_events iterations ;;
  ret {| initial_events := len events;
         resumed_events := len new_events;
         success := len new_events =? iterations |}.

(** [test_stream_durability] before its [try]: the buffer
    [pre_disconnect_events] and the captured [resume_token]. *)
Definition durability_pre (disconnect_duration : Z) : M W (list E * T) :=
  change_stream <- watch env None ;;
  t <- get_now ;;
  insert_one env (pre_disconnect_doc t) ;;;
  pre_disconnect_events <- first_event change_stream ;;
  resume_token <- get_resume_token change_stream ;;
  close env change_stream ;;;
  sleep env disconnect_duration ;;;
  ret (pre_disconnect_events, resume_token).

(** The [try] body up to its [return]: the buffer [post_disconnect_events]. *)
Definition durability_post_events (resume_token : T) : M W (list E) :=
  resumed_stream <- watch env (Some resume_token) ;;
  t <- get_now ;;
  insert_one env (post_disconnect_doc t) ;;;
  post_disconnect_events <- first_event resumed_stream ;;
  close env resumed_stream ;;;
  ret post_disconnect_events.

(** The [try] body. *)
Definition durability_try (pre_disconnect_events : list E) (resume_token : T)
  : M W durability_result :=
  post_disconnect_events <- durability_post_events resume_token ;;
  ret {| pre_disconnect_events := len pre_disconnect_events;
         post_disconnect_events := len post_disconnect_events;
         d_success := len post_disconnect_events >? 0;
         error := None |}.

(** The [except Exception as e] handler. *)
Definition durability_except (pre_disconnect_events : list E) (e : exn)
  : M W durability_result :=
  ret {| pre_disconnect_events := len pre_disconnect_events;
         post_disconnect_events := 0;
         d_success := false;
         error := Some (str e) |}.

Definition test_stream_durability (disconnect_duration : Z) : M W durability_result :=
  '(pre_disconnect_events, resume_token) <- durability_pre disconnect_duration ;;
  try_except (durability_try pre_disconnect_events resume_token)
             (durability_except pre_disconnect_events).

(** The defaults of the two keyword parameters. *)
Definition default_iterations : Z := 5.
Definition default_disconnect_duration : Z := 5.

Definition run_all_tests : M W results :=
  setup ;;;
  r1 <- test_resume_token_persistence default_iterations ;;
  r2 <- test_stream_durability default_disconnect_duration ;;
  ret {| resume_token_test := r1; durability_test := r2 |}.

End Tester.

(** ** A collection to run the program on *)

(** Modelled from the spec: the EventSource and StreamHandle of sections 4.1
    and 4.2.  MongoDB and the pymongo driver are not part of the repository;
    this module is a small executable collection with change streams: an
    append-only log of changes, streams that are positions in the log,
    tokens that name a position and expire after a retention window.  Four
    settings make it behave the way a real deployment can: documents
    inserted by other clients ([others]), a retention window ([window]),
    the time a request takes ([latency]) and an outage after a number of
    requests ([uptime]). *)
Module LogSource.

(** A change event: its sequence marker, the inserted document, the time
    it was committed. *)
Record change : Type := mk_change {
  seq_no : nat;
  full_document : doc;
  cluster_time : Z
}.

Record token : Type := mk_token { tok_pos : nat; tok_time : Z }.

Record cursor : Type := mk_cursor {
  cur_pos : nat;      (* index in the log of the next change to deliver *)
  cur_time : Z;       (* commit time of the last change delivered *)
  alive : bool
}.

Record world : Type := mk_world {
  documents : list doc;       (* the collection *)
  indexes : list string;
  oplog : list change;        (* every insert, oldest first *)
  cursors : list cursor;      (* the change streams, by handle *)
  clock : Z;                  (* seconds *)
  window : Z;                 (* seconds a resume token stays usable *)
  others : list doc;          (* inserts of other clients, one committed
                                 after each insert of ours *)
  latency : Z;                (* seconds one request takes *)
  uptime : option nat         (* requests the server still answers *)
}.

Definition set_documents (w : world) (ds : list doc) : world :=
  mk_world ds (indexes w) (oplog w) (cursors w) (clock w) (window w) (others w) (latency w) (uptime w).
Definition set_indexes (w : world) (ix : list string) : world :=
  mk_world (documents w) ix (oplog w) (cursors w) (clock w) (window w) (others w) (latency w) (uptime w).
Definition set_oplog (w : world) (l : list change) : world :=
  mk_world (documents w) (indexes w) l (cursors w) (clock w) (window w) (others w) (latency w) (uptime w).
Definition set_cursors (w : world) (cs : list cursor) : world :=
  mk_world (documents w) (indexes w) (oplog w) cs (clock w) (window w) (others w) (latency w) (uptime w).
Definition set_clock (w : world) (t : Z) : world :=
  mk_world (documents w) (indexes w) (oplog w) (cursors w) t (window w) (others w) (latency w) (uptime w).
Definition set_others (w : world) (ds : list doc) : world :=
  mk_world (documents w) (indexes w) (oplog w) (cursors w) (clock w) (window w) ds (latency w) (uptime w).
Definition set_uptime (w : world) (u : option nat) : world :=
  mk_world (documents w) (indexes w) (oplog w) (cursors w) (clock w) (window w) (others w) (latency w) u.

Definition AutoReconnect : exn := mk_exn "AutoReconnect" "connection closed" true.
Definition ResumeError : exn :=
  mk_exn "OperationFailure" "resume point may no longer be in the oplog" true.
Definition InvalidOperation : exn := mk_exn "InvalidOperation" "unknown cursor" true.
Definition ValueError : exn :=
  mk_exn "ValueError" "sleep length must be non-negative" true.
Definition OverflowError : exn :=
  mk_exn "OverflowError" "timestamp too large to convert to C _PyTime_t" true.

(** The longest sleep, in seconds, that [time.sleep] can hold: it keeps
    the duration as a signed 64-bit count of nanoseconds. *)
Definition sleep_limit : Z := 9223372036.

(** One round trip to the server. *)
Definition request : M world unit :=
  fun w =>
    match uptime w with
    | None => Returned tt (set_clock w (clock w + latency w))
    | Some O => Raised AutoReconnect w
    | Some (Datatypes.S n) =>
        Returned tt (set_uptime (set_clock w (clock w + latency w)) (Some n))
    end.

(** Append one insert to the collection and to the log. *)
Definition commit (d : doc) (w : world) : world :=
  set_oplog (set_documents w (documents w ++ [d]))
            (oplog w ++ [mk_change (List.length (oplog w)) d (clock w)]).

Definition ls_drop : M world unit :=
  request ;;;
  fun w => Returned tt (set_indexes (set_documents w []) []).

Definition ls_create_index (key : string) : M world unit :=
  request ;;;
  fun w => Returned tt (set_indexes w (indexes w ++ [key])).

Definition open_cursor (c : cursor) : M world nat :=
  fun w => Returned (List.length (cursors w)) (set_cursors w (cursors w ++ [c])).

Definition ls_watch (resume_after : option token) : M world nat :=
  request ;;;
  fun w =>
    match resume_after with
    | None => open_cursor (mk_cursor (List.length (oplog w)) (clock w) true) w
    | Some t =>
        if (clock w - tok_time t >? window w) || (List.length (oplog w) <? tok_pos t)%nat
        then Raised ResumeError w
        else open_cursor (mk_cursor (tok_pos t) (tok_time t) true) w
    end.

Definition ls_insert_one (d : doc) : M world unit :=
  request ;;;
  fun w =>
    let w1 := commit d w in
    match others w1 with
    | [] => Returned tt w1
    | f :: rest => Returned tt (set_others (commit f w1) rest)
    end.

Fixpoint update {A : Type} (l : list A) (i : nat) (a : A) : list A :=
  match l, i with
  | [], _ => []
  | _ :: l', O => a :: l'
  | x :: l', Datatypes.S i' => x :: update l' i' a
  end.

Definition ls_next (h : nat) : M world (option change) :=
  fun w =>
    match nth_error (cursors w) h with
    | None => Raised InvalidOperation w
    | Some c =>
        if alive c then
          (request ;;;
           fun w1 =>
             match nth_error (oplog w1) (cur_pos c) with
             | Some ev =>
                 Returned (Some ev)
                   (set_cursors w1
                      (update (cursors w1) h
                         (mk_cursor (Datatypes.S (cur_pos c)) (cluster_time ev) true)))
             | None => Blocked
             end) w
        else Returned None w
    end.

Definition ls_resume_token (h : nat) (w : world) : token :=
  match nth_error (cursors w) h with
  | Some c => mk_token (cur_pos c) (cur_time c)
  | None => mk_token O 0
  end.

Definition ls_close (h : nat) : M world unit :=
  fun w =>
    match nth_error (cursors w) h with
    | Some c =>
        Returned tt
          (set_cursors w (update (cursors w) h (mk_cursor (cur_pos c) (cur_time c) false)))
    | None => Returned tt w
    end.

(** [time.sleep(seconds)] with an int: a duration that does not fit the
    64-bit nanosecond count overflows, a negative one is refused, any other
    moves the clock. *)
Definition ls_sleep (seconds : Z) : M world unit :=
  fun w =>
    if sleep_limit <? Z.abs seconds then Raised OverflowError w
    else if seconds <? 0 then Raised ValueError w
    else Returned tt (set_clock w (clock w + seconds)).

(** Modelled from the spec: the EventSource of sections 4.1 and 4.2, as an
    environment of the program. *)
Definition env : Env world nat token change :=
  mk_env world nat token change
    ls_drop ls_create_index ls_watch ls_insert_one
    ls_next ls_resume_token ls_close clock ls_sleep.

(** A fresh deployment: nothing stored, no other client, no outage. *)
Definition quiet (retention : Z) : world :=
  mk_world [] [] [] [] 0 retention [] 0 None.

End LogSource.


(** ** The verdicts as the specification words them, and the runs used below *)

(** [d.get(key)] on a document. *)
Fixpoint lookup (key : string) (d : doc) : option value :=
  match d with
  | [] => None
  | (k, v) :: rest => if String.eqb k key then Some v else lookup key rest
  end.

Module Scenarios.
Import LogSource.

(** Section 4.5, scenario A, step 7: the second collection has
    [iterations] events, none of them already in the first collection,
    and they are the post-resume appends in append order. *)
Definition spec_verified_A (iterations : Z) (eventsA eventsB : list change) : Prop :=
  len eventsB = iterations /\
  (forall e, In e eventsB -> ~ In e eventsA) /\
  map (fun e => lookup "test" (full_document e)) eventsB =
  map (fun i => Some (VStr (String.append "resumed_" (fmt_int i)))) (range iterations).

(** Section 4.5, scenario B, step 6: something was delivered, and it is
    the post-disconnect document. *)
Definition spec_verified_B (postEvents : list change) : Prop :=
  0 < len postEvents /\
  exists e, hd_error postEvents = Some e /\
            lookup "phase" (full_document e) = Some (VStr "post-disconnect").

(** What stream [h] has still to deliver in [w]. *)
Definition pending (h : nat) (w : world) : list change :=
  match nth_error (cursors w) h with
  | Some c => skipn (cur_pos c) (oplog w)
  | None => []
  end.

(** Section 4.3: [collect] returns the first [count] pending events, or
    all of them when fewer are there, and raises nothing. *)
Definition spec_collect (count : Z) (available : list change)
    (o : outcome world (list change)) : Prop :=
  exists w', o = Returned (firstn (Z.to_nat count) available) w'.

(** The log numbers its entries. *)
Definition log_ok (w : world) : Prop :=
  forall i e, nth_error (oplog w) i = Some e -> seq_no e = i.

(** [grows w w1]: from [w] to [w1] the streams are untouched and the log
    has only been appended to, keeping its numbering. *)
Definition grows (w w1 : world) : Prop :=
  cursors w1 = cursors w /\
  (exists ext, oplog w1 = oplog w ++ ext) /\
  (log_ok w -> log_ok w1).

(** A deployment on which nothing goes wrong: the server answers at once
    and for ever, and every log entry and every stream position is within
    the retention window. *)
Definition healthy (w : world) : Prop :=
  uptime w = None /\
  latency w = 0 /\
  0 <= window w /\
  (forall e, In e (oplog w) -> clock w - cluster_time e <= window w) /\
  (forall c, In c (cursors w) -> clock w - cur_time c <= window w).

(** The server answers at once and for ever. *)
Definition responsive (w : world) : Prop := uptime w = None /\ latency w = 0.

(** [w1] is [w] with other streams. *)
Definition only_streams (w w1 : world) : Prop := w1 = set_cursors w (cursors w1).

(** [w1] is [w] with other documents, another log and other pending writes
    of other clients. *)
Definition only_data (w w1 : world) : Prop :=
  w1 = set_others (set_oplog (set_documents w (documents w1)) (oplog w1)) (others w1).

(** The log entries written for the documents [mk i t], [i] running
    through [xs], from position [base] on, at time [t]. *)
Fixpoint appended (mk : Z -> Z -> doc) (base : nat) (t : Z) (xs : list Z) : list change :=
  match xs with
  | [] => []
  | x :: rest => mk_change base (mk x t) t :: appended mk (Datatypes.S base) t rest
  end.

(** [keeps w w1]: from [w] to [w1] no document has been removed or
    changed, only appended, and the indexes are the same. *)
Definition keeps (w w1 : world) : Prop :=
  (exists ext, documents w1 = documents w ++ ext) /\ indexes w1 = indexes w.

(** A document written by another client. *)
Definition foreign_doc : doc := [("owner", VStr "another client")].

(** A collection that another client writes to once. *)
Definition shared : world := set_others (quiet 10) [foreign_doc].

(** A deployment that answers a request in one second and keeps two
    seconds of history. *)
Definition slow : world :=
  mk_world [] [] [] [] 0 2 [] 1 None.

(** A deployment that keeps three seconds of history. *)
Definition short_lived : world := quiet 3.

(** A server that goes away after four requests. *)
Definition flaky : world := set_uptime (quiet 10) (Some 4%nat).

(** A collection that already holds data. *)
Definition used : world :=
  mk_world [[("legacy", VInt 1)]; [("legacy", VInt 2)]] ["legacy"]
           [mk_change 0 [("legacy", VInt 1)] 0; mk_change 1 [("legacy", VInt 2)] 0]
           [] 0 10 [] 0 None.

(** An open stream with one change to deliver. *)
Definition one_pending : world :=
  mk_world [[("test", VInt 0)]] ["_id"] [mk_change 0 [("test", VInt 0)] 0]
           [mk_cursor 0 0 true] 0 10 [] 0 None.

(** A server that ends a stream which has nothing left to deliver:
    iterating it closes the stream and stops the iteration, where
    [ls_next] waits. *)
Definition ending_next (h : nat) : M world (option change) :=
  fun w =>
    match ls_next h w with
    | Blocked => (ls_close h ;;; ret None) w
    | o => o
    end.

Definition ending : Env world nat token change :=
  mk_env world nat token change
    ls_drop ls_create_index ls_watch ls_insert_one
    ending_next ls_resume_token ls_close clock ls_sleep.

(** The operator interrupts the program five seconds into the run, while
    it reopens a stream: from then on [watch(resume_after=token)] raises
    [KeyboardInterrupt]. *)
Definition interrupted_watch (resume_after : option token) : M world nat :=
  fun w =>
    match resume_after with
    | None => ls_watch None w
    | Some t => if 5 <=? clock w then Raised KeyboardInterrupt w
                else ls_watch (Some t) w
    end.

Definition interrupted : Env world nat token change :=
  mk_env world nat token change
    ls_drop ls_create_index interrupted_watch ls_insert_one
    ls_next ls_resume_token ls_close clock ls_sleep.

End Scenarios.

(** ** Facts about the monad *)

Lemma bind_returned {W A B : Type} (m : M W A) (k : A -> M W B) w b w' :
  bind m k w = Returned b w' <->
  exists a w1, m w = Returned a w1 /\ k a w1 = Returned b w'.
Proof.
  unfold bind. split.
  - destruct (m w) as [a w1 | e w1 |]; try discriminate.
    intros H. exists a, w1. split; [reflexivity | exact H].
  - intros (a & w1 & Hm & Hk). rewrite Hm. exact Hk.
Qed.

Lemma bind_raised {W A B : Type} (m : M W A) (k : A -> M W B) w e w' :
  bind m k w = Raised e w' <->
  m w = Raised e w' \/ exists a w1, m w = Returned a w1 /\ k a w1 = Raised e w'.
Proof.
  unfold bind. split.
  - destruct (m w) as [a w1 | e1 w1 |]; try discriminate.
    + intros H. right. exists a, w1. split; [reflexivity | exact H].
    + intros H. left. injection H as -> ->. reflexivity.
  - intros [Hm | (a & w1 & Hm & Hk)]; rewrite Hm; [reflexivity | exact Hk].
Qed.

Lemma bind_step {W A B : Type} (m : M W A) (k : A -> M W B) w a w1 :
  m w = Returned a w1 -> bind m k w = k a w1.
Proof. unfold bind. intros ->. reflexivity. Qed.

Lemma try_except_returned {W A : Type} (m : M W A) (h : exn -> M W A) w a w1 :
  m w = Returned a w1 -> try_except m h w = Returned a w1.
Proof. unfold try_except. intros ->. reflexivity. Qed.

Lemma try_except_raised {W A : Type} (m : M W A) (h : exn -> M W A) w e w1 :
  m w = Raised e w1 -> is_exception e = true -> try_except m h w = h e w1.
Proof. unfold try_except. intros -> ->. reflexivity. Qed.

Lemma try_except_escapes {W A : Type} (m : M W A) (h : exn -> M W A) w e w1 :
  m w = Raised e w1 -> is_exception e = false -> try_except m h w = Raised e w1.
Proof. unfold try_except. intros -> ->. reflexivity. Qed.

(** Split a hypothesis [H : (x <- m ;; k) w = Returned b w'] into the run of
    [m] and the run of the continuation, as often as possible. *)
Ltac split_bind H :=
  repeat (apply bind_returned in H;
          let a := fresh "a" in
          let w := fresh "w" in
          let Hm := fresh "Hm" in
          destruct H as (a & w & Hm & H); cbv beta in H).

(** The same, once. *)
Ltac split_bind_once H :=
  apply bind_returned in H;
  let a := fresh "a" in
  let w := fresh "w" in
  let Hm := fresh "Hm" in
  destruct H as (a & w & Hm & H); cbv beta in H.

Lemma len_nonneg {A : Type} (xs : list A) : 0 <= len xs.
Proof. unfold len. lia. Qed.

Lemma len_app {A : Type} (xs ys : list A) : len (xs ++ ys) = len xs + len ys.
Proof. unfold len. rewrite length_app. lia. Qed.

Lemma len_nil_inv {A : Type} (xs : list A) : len xs = 0 -> xs = [].
Proof. destruct xs; [reflexivity | unfold len; simpl; lia]. Qed.

(** ** Facts about the methods, for every environment *)

Section TesterFacts.
Context {W S T E : Type}.
Variable env : Env W S T E.

(** One turn of the collection loop. *)
Lemma collect_step (cs : S) (iterations : Z) (events : list E) (w : W) :
  collect env cs iterations events w =
  match next env cs w with
  | Returned (Some change) w1 =>
      if len (events ++ [change]) >=? iterations
      then Returned (events ++ [change]) w1
      else collect env cs iterations (events ++ [change]) w1
  | Returned None w1 => Returned events w1
  | Raised e w1 => Raised e w1
  | Blocked => Blocked
  end.
Proof.
  simp collect.
  destruct (next env cs w) as [[c|] w1 | e w1 |]; simpl; try reflexivity.
  destruct (inspect (len (events ++ [c]) >=? iterations)) as [[] Hb];
    simpl; rewrite Hb; reflexivity.
Qed.

Lemma pulled_nil_inv cs w w' : pulled env cs w [] w' -> w' = w.
Proof. inversion 1. reflexivity. Qed.

Lemma pulled_cons_inv cs w c evs w' :
  pulled env cs w (c :: evs) w' ->
  exists w1, next env cs w = Returned (Some c) w1 /\ pulled env cs w1 evs w'.
Proof. inversion 1; subst. eauto. Qed.

(** While the buffer stays short of [iterations], the loop keeps going. *)
Lemma collect_pulled cs iterations w more w1 :
  pulled env cs w more w1 ->
  forall events,
    len (events ++ more) < iterations ->
    collect env cs iterations events w =
    collect env cs iterations (events ++ more) w1.
Proof.
  induction 1 as [w | w c w1 evs w2 Hnext _ IH]; intros events Hlen.
  - rewrite app_nil_r. reflexivity.
  - rewrite collect_step, Hnext.
    replace (events ++ c :: evs) with ((events ++ [c]) ++ evs) in *
      by (rewrite <- app_assoc; reflexivity).
    assert (Hc : (len (events ++ [c]) >=? iterations) = false).
    { rewrite Z.geb_leb. apply Z.leb_gt.
      rewrite len_app in Hlen. pose proof (len_nonneg evs). lia. }
    rewrite Hc. apply IH. exact Hlen.
Qed.

(** When the loop returns: either it delivered events until the buffer
    reached [iterations], or the stream ended ([StopIteration]) first. *)
Lemma collect_returned cs iterations (k : nat) :
  forall events w evs w',
    (Z.to_nat (iterations - len events) <= k)%nat ->
    len events < iterations ->
    (collect env cs iterations events w = Returned evs w' <->
     exists more,
       evs = events ++ more /\
       ((pulled env cs w more w' /\ len evs = iterations) \/
        (exists w2, pulled env cs w more w2 /\ len evs < iterations /\
                    next env cs w2 = Returned None w'))).
Proof.
  induction k as [| k IH]; intros events w evs w' Hk Hlt; [lia |].
  rewrite collect_step.
  destruct (next env cs w) as [[c |] w1 | e w1 |] eqn:Hnext.
  - destruct (len (events ++ [c]) >=? iterations) eqn:Hc.
    + rewrite Z.geb_leb in Hc. apply Z.leb_le in Hc.
      rewrite len_app in Hc. change (len [c]) with 1 in Hc.
      split.
      * intros H. injection H as <- <-. exists [c]. split; [reflexivity |].
        left. split.
        -- econstructor; [exact Hnext | constructor].
        -- rewrite len_app. change (len [c]) with 1. lia.
      * intros (more & -> & Hcases).
        destruct more as [| c' more].
        { destruct Hcases as [[_ Hn] | (w2 & Hp & _ & Hstop)].
          - rewrite app_nil_r in Hn. lia.
          - apply pulled_nil_inv in Hp. subst w2. congruence. }
        assert (Hhead : exists w2, pulled env cs w (c' :: more) w2 /\
                                   len (events ++ c' :: more) <= iterations).
        { destruct Hcases as [[Hp Hn] | (w2 & Hp & Hn & _)];
            [exists w' | exists w2]; split; auto; lia. }
        destruct Hhead as (w2 & Hp & Hle).
        apply pulled_cons_inv in Hp as (w1' & Hnext' & Hp).
        rewrite Hnext in Hnext'. injection Hnext' as <- <-.
        assert (more = []).
        { apply len_nil_inv. rewrite len_app in Hle.
          change (c :: more) with ([c] ++ more) in Hle.
          rewrite len_app in Hle. change (len [c]) with 1 in Hle.
          pose proof (len_nonneg more). lia. }
        subst more.
        destruct Hcases as [[Hp' _] | (w3 & _ & Hn & _)].
        -- apply pulled_cons_inv in Hp' as (w1' & Hnext' & Hp').
           rewrite Hnext in Hnext'. injection Hnext' as <-.
           apply pulled_nil_inv in Hp'. subst. reflexivity.
        -- rewrite len_app in Hn. change (len [c]) with 1 in Hn. lia.
    + rewrite Z.geb_leb in Hc. apply Z.leb_gt in Hc.
      rewrite IH.
      2:{ rewrite len_app in *. change (len [c]) with 1 in *. lia. }
      2:{ exact Hc. }
      split.
      * intros (more & -> & Hcases). exists (c :: more).
        rewrite <- app_assoc in *. simpl in *.
        split; [reflexivity |].
        destruct Hcases as [[Hp Hn] | (w2 & Hp & Hn & Hstop)].
        -- left. split; [econstructor; eassumption | exact Hn].
        -- right. exists w2. repeat split; [econstructor; eassumption | exact Hn | exact Hstop].
      * intros (more & -> & Hcases).
        destruct more as [| c' more].
        { destruct Hcases as [[_ Hn] | (w2 & Hp & _ & Hstop)].
          - rewrite app_nil_r in Hn. lia.
          - apply pulled_nil_inv in Hp. subst w2. congruence. }
        exists more. rewrite <- app_assoc. simpl.
        destruct Hcases as [[Hp Hn] | (w2 & Hp & Hn & Hstop)];
          apply pulled_cons_inv in Hp as (w1' & Hnext' & Hp);
          rewrite Hnext in Hnext'; injection Hnext' as <- <-.
        -- split; [reflexivity |]. left. split; assumption.
        -- split; [reflexivity |]. right. exists w2. repeat split; assumption.
  - split.
    + intros H. injection H as <- <-. exists []. rewrite app_nil_r.
      split; [reflexivity |]. right. exists w.
      repeat split; [constructor | exact Hlt | exact Hnext].
    + intros (more & -> & Hcases).
      destruct more as [| c' more].
      * rewrite app_nil_r in *.
        destruct Hcases as [[_ Hn] | (w2 & Hp & _ & Hstop)]; [lia |].
        apply pulled_nil_inv in Hp. subst w2. congruence.
      * destruct Hcases as [[Hp _] | (w2 & Hp & _ & _)];
          apply pulled_cons_inv in Hp as (w1' & Hnext' & _); congruence.
  - split; [discriminate |].
    intros (more & -> & Hcases).
    destruct more as [| c' more].
    + destruct Hcases as [[_ Hn] | (w2 & Hp & _ & Hstop)].
      * rewrite app_nil_r in Hn. lia.
      * apply pulled_nil_inv in Hp. subst w2. congruence.
    + destruct Hcases as [[Hp _] | (w2 & Hp & _ & _)];
        apply pulled_cons_inv in Hp as (w1' & Hnext' & _); congruence.
  - split; [discriminate |].
    intros (more & -> & Hcases).
    destruct more as [| c' more].
    + destruct Hcases as [[_ Hn] | (w2 & Hp & _ & Hstop)].
      * rewrite app_nil_r in Hn. lia.
      * apply pulled_nil_inv in Hp. subst w2. congruence.
    + destruct Hcases as [[Hp _] | (w2 & Hp & _ & _)];
        apply pulled_cons_inv in Hp as (w1' & Hnext' & _); congruence.
Qed.

Lemma collect_length cs iterations w evs w' :
  1 <= iterations ->
  collect env cs iterations [] w = Returned evs w' ->
  len evs <= iterations.
Proof.
  intros Hit H.
  apply (collect_returned cs iterations (Z.to_nat iterations)) in H.
  - destruct H as (more & -> & [[_ Hn] | (w2 & _ & Hn & _)]); lia.
  - change (len (@nil E)) with 0. lia.
  - change (len (@nil E)) with 0. lia.
Qed.

(** The result dict is computed from the two buffers alone. *)
Lemma test_resume_token_persistence_returned iterations w r w' :
  test_resume_token_persistence env iterations w = Returned r w' <->
  exists events new_events,
    resume_token_events env iterations w = Returned (events, new_events) w' /\
    r = {| initial_events := len events;
           resumed_events := len new_events;
           success := len new_events =? iterations |}.
Proof.
  unfold test_resume_token_persistence. rewrite bind_returned. split.
  - intros ([events new_events] & w1 & Hm & Hr).
    unfold ret in Hr. injection Hr as <- <-. eauto.
  - intros (events & new_events & Hm & ->).
    exists (events, new_events), w'. split; [exact Hm | reflexivity].
Qed.

(** The steps scenario A has gone through when it returns. *)
Lemma resume_token_events_steps iterations w events new_events w' :
  resume_token_events env iterations w = Returned (events, new_events) w' ->
  exists cs w1 w2 w3 w4 cs' w5 w6 w7,
    watch env None w = Returned cs w1 /\
    for_each (range iterations)
      (fun i => t <- get_now env ;; insert_one env (initial_doc i t)) w1
      = Returned tt w2 /\
    collect env cs iterations [] w2 = Returned events w3 /\
    close env cs w3 = Returned tt w4 /\
    watch env (Some (resume_token env cs w3)) w4 = Returned cs' w5 /\
    for_each (range iterations)
      (fun i => t <- get_now env ;; insert_one env (resumed_doc i t)) w5
      = Returned tt w6 /\
    collect env cs' iterations [] w6 = Returned new_events w7 /\
    close env cs' w7 = Returned tt w'.
Proof.
  unfold resume_token_events. intros H. split_bind H.
  unfold ret in H. injection H as <- <- <-.
  unfold get_resume_token in Hm2. injection Hm2 as <- <-.
  repeat match goal with u : unit |- _ => destruct u end.
  repeat eexists; eassumption.
Qed.

(** And back: steps that all return make scenario A return. *)
Lemma resume_token_events_run iterations w cs w1 w2 events w3 w4 cs' w5 w6
    new_events w7 w' :
  watch env None w = Returned cs w1 ->
  for_each (range iterations)
    (fun i => t <- get_now env ;; insert_one env (initial_doc i t)) w1
    = Returned tt w2 ->
  collect env cs iterations [] w2 = Returned events w3 ->
  close env cs w3 = Returned tt w4 ->
  watch env (Some (resume_token env cs w3)) w4 = Returned cs' w5 ->
  for_each (range iterations)
    (fun i => t <- get_now env ;; insert_one env (resumed_doc i t)) w5
    = Returned tt w6 ->
  collect env cs' iterations [] w6 = Returned new_events w7 ->
  close env cs' w7 = Returned tt w' ->
  resume_token_events env iterations w = Returned (events, new_events) w'.
Proof.
  intros Hw Hins Hcol Hclose Hres Hins' Hcol' Hclose'.
  unfold resume_token_events.
  rewrite (bind_step _ _ _ _ _ Hw).
  rewrite (bind_step _ _ _ _ _ Hins).
  rewrite (bind_step _ _ _ _ _ Hcol).
  rewrite (bind_step (get_resume_token env cs) _ w3 (resume_token env cs w3) w3 eq_refl).
  rewrite (bind_step _ _ _ _ _ Hclose).
  rewrite (bind_step _ _ _ _ _ Hres).
  rewrite (bind_step _ _ _ _ _ Hins').
  rewrite (bind_step _ _ _ _ _ Hcol').
  rewrite (bind_step _ _ _ _ _ Hclose').
  reflexivity.
Qed.

(** The two buffers are what the two collection loops returned. *)
Lemma resume_token_events_loops iterations w events new_events w' :
  resume_token_events env iterations w = Returned (events, new_events) w' ->
  exists cs w1 w2 cs' w3 w4,
    collect env cs iterations [] w1 = Returned events w2 /\
    collect env cs' iterations [] w3 = Returned new_events w4.
Proof.
  intros H. apply resume_token_events_steps in H
    as (cs & w1 & w2 & w3 & w4 & cs' & w5 & w6 & w7 & H).
  exists cs, w2, w3, cs', w6, w7. tauto.
Qed.

Lemma first_event_cases cs w evs w' :
  first_event env cs w = Returned evs w' ->
  (exists c, next env cs w = Returned (Some c) w' /\ evs = [c]) \/
  (next env cs w = Returned None w' /\ evs = []).
Proof.
  unfold first_event. intros H. split_bind H.
  destruct a as [c |]; unfold ret in H; injection H as <- <-; eauto.
Qed.

(** Past the [try], the method returns what the [try] body returns. *)
Lemma test_stream_durability_try d w pre tok w1 :
  durability_pre env d w = Returned (pre, tok) w1 ->
  test_stream_durability env d w =
  try_except (durability_try env pre tok) (durability_except pre) w1.
Proof.
  intros Hpre. unfold test_stream_durability.
  rewrite (bind_step _ _ _ _ _ Hpre). reflexivity.
Qed.

(** An exception of the reopening propagates out of
    [test_resume_token_persistence] and out of [run_all_tests]. *)
Lemma resume_failure_propagates iterations w cs w1 w2 evs w3 w4 e w5 :
  watch env None w = Returned cs w1 ->
  for_each (range iterations)
    (fun i => t <- get_now env ;; insert_one env (initial_doc i t)) w1
    = Returned tt w2 ->
  collect env cs iterations [] w2 = Returned evs w3 ->
  close env cs w3 = Returned tt w4 ->
  watch env (Some (resume_token env cs w3)) w4 = Raised e w5 ->
  test_resume_token_persistence env iterations w = Raised e w5.
Proof.
  intros Hw Hins Hcol Hclose Hres.
  assert (Hev : resume_token_events env iterations w = Raised e w5).
  { unfold resume_token_events.
    rewrite (bind_step _ _ _ _ _ Hw).
    rewrite (bind_step _ _ _ _ _ Hins).
    rewrite (bind_step _ _ _ _ _ Hcol).
    rewrite (bind_step (get_resume_token env cs) _ w3 (resume_token env cs w3) w3 eq_refl).
    rewrite (bind_step _ _ _ _ _ Hclose).
    unfold bind at 1. rewrite Hres. reflexivity. }
  unfold test_resume_token_persistence, bind. rewrite Hev. reflexivity.
Qed.

End TesterFacts.

(** ** The claims that hold for every environment *)

Section Claims.
Context {W S T E : Type}.
Variable env : Env W S T E.

(** C8: for every [iterations >= 1], when [test_resume_token_persistence]
    returns, each collection loop has stopped with at most [iterations]
    events in its buffer, so [initial_events] and [resumed_events] are at
    most [iterations], and [success] is true exactly when [resumed_events]
    equals [iterations]. *)
Theorem resume_counts_bounded iterations w r w' :
  1 <= iterations ->
  test_resume_token_persistence env iterations w = Returned r w' ->
  initial_events r <= iterations /\
  resumed_events r <= iterations /\
  (success r = true <-> resumed_events r = iterations).
Proof.
  intros Hit H.
  apply test_resume_token_persistence_returned in H
    as (events & new_events & Hev & ->).
  apply resume_token_events_loops in Hev
    as (cs & w1 & w2 & cs' & w3 & w4 & HA & HB).
  apply collect_length in HA; [| exact Hit].
  apply collect_length in HB; [| exact Hit].
  simpl. split; [exact HA |]. split; [exact HB |]. apply Z.eqb_eq.
Qed.

(** C1, as amended: whenever scenario A runs to its [return], [success]
    is true if and only if the post-resume collection holds exactly
    [iterations] events; the events themselves are not compared. *)
Theorem resume_success_iff_count iterations w events new_events w' :
  resume_token_events env iterations w = Returned (events, new_events) w' ->
  exists r,
    test_resume_token_persistence env iterations w = Returned r w' /\
    initial_events r = len events /\
    resumed_events r = len new_events /\
    (success r = true <-> len new_events = iterations).
Proof.
  intros Hev. eexists. split.
  - apply test_resume_token_persistence_returned. eauto.
  - simpl. repeat split; try apply Z.eqb_eq; auto.
Qed.

(** C4, as amended: in scenario B, whenever the method returns a result
    (in particular when the stream was reopened), [success] is true if and
    only if the [try] body ran to its end with at least one post-disconnect
    event collected; the event itself is not inspected. *)
Theorem durability_success_iff_event d w pre tok w1 r w2 :
  durability_pre env d w = Returned (pre, tok) w1 ->
  test_stream_durability env d w = Returned r w2 ->
  (d_success r = true <->
   exists post,
     durability_post_events env tok w1 = Returned post w2 /\ 0 < len post) /\
  (d_success r = true -> 0 < post_disconnect_events r /\ error r = None).
Proof.
  intros Hpre.
  rewrite (test_stream_durability_try env _ _ _ _ _ Hpre).
  unfold try_except, durability_try, durability_except, bind, ret.
  destruct (durability_post_events env tok w1) as [post w3 | e w3 |];
    [| destruct (is_exception e) |];
    intros H; try discriminate H; injection H as <- <-; simpl.
  - split.
    + split.
      * intros H. apply Z.gtb_lt in H. exists post. split; [reflexivity | lia].
      * intros (post' & Heq & Hlen). injection Heq as <-.
        apply Z.gtb_lt. lia.
    + intros H. apply Z.gtb_lt in H. split; [lia | reflexivity].
  - split; [| discriminate]. split; [discriminate |].
    intros (post & Heq & _). discriminate Heq.
Qed.

(** C5: in [test_stream_durability], if reopening the stream from the
    captured token raises an error (an instance of [Exception], as a
    resume error is), the method returns a result with [success = False],
    the error recorded, no post-disconnect event, and
    [pre_disconnect_events] still the number of events collected before
    the disconnect.  Only what is no instance of [Exception] leaves the
    method from there. *)
Theorem durability_resume_error d w pre tok w1 e w2 :
  durability_pre env d w = Returned (pre, tok) w1 ->
  watch env (Some tok) w1 = Raised e w2 ->
  test_stream_durability env d w =
  if is_exception e
  then Returned {| pre_disconnect_events := len pre;
                   post_disconnect_events := 0;
                   d_success := false;
                   error := Some (str e) |} w2
  else Raised e w2.
Proof.
  intros Hpre Hwatch.
  rewrite (test_stream_durability_try env _ _ _ _ _ Hpre).
  assert (Htry : durability_try env pre tok w1 = Raised e w2).
  { unfold durability_try, durability_post_events, bind.
    rewrite Hwatch. reflexivity. }
  destruct (is_exception e) eqn:Hexc.
  - rewrite (try_except_raised _ _ _ e w2 Htry Hexc). reflexivity.
  - exact (try_except_escapes _ _ _ e w2 Htry Hexc).
Qed.

(** C9, as amended: in [test_stream_durability], an exception that is an
    instance of [Exception], whatever its class, raised by the reopening,
    by the post-disconnect insert or by the post-disconnect iteration is
    turned into a result with [success = False],
    [post_disconnect_events = 0], the stringified error and the
    pre-disconnect count; once the [try] is reached no instance of
    [Exception] leaves the method.  An exception that is not an instance of
    [Exception] ([KeyboardInterrupt], [SystemExit]) is not caught by
    [except Exception]: raised by one of these calls, it leaves the
    method. *)
Theorem durability_catches_all d w pre tok w1 :
  durability_pre env d w = Returned (pre, tok) w1 ->
  (forall e w2,
      is_exception e = true ->
      (watch env (Some tok) w1 = Raised e w2 \/
       (exists s wa,
           watch env (Some tok) w1 = Returned s wa /\
           insert_one env (post_disconnect_doc (now env wa)) wa = Raised e w2) \/
       (exists s wa wb,
           watch env (Some tok) w1 = Returned s wa /\
           insert_one env (post_disconnect_doc (now env wa)) wa = Returned tt wb /\
           next env s wb = Raised e w2)) ->
      test_stream_durability env d w =
      Returned {| pre_disconnect_events := len pre;
                  post_disconnect_events := 0;
                  d_success := false;
                  error := Some (str e) |} w2) /\
  (forall e w2,
      test_stream_durability env d w = Raised e w2 -> is_exception e = false) /\
  (forall e w2,
      is_exception e = false ->
      (watch env (Some tok) w1 = Raised e w2 \/
       (exists s wa,
           watch env (Some tok) w1 = Returned s wa /\
           insert_one env (post_disconnect_doc (now env wa)) wa = Raised e w2) \/
       (exists s wa wb,
           watch env (Some tok) w1 = Returned s wa /\
           insert_one env (post_disconnect_doc (now env wa)) wa = Returned tt wb /\
           next env s wb = Raised e w2)) ->
      test_stream_durability env d w = Raised e w2).
Proof.
  intros Hpre. rewrite (test_stream_durability_try env _ _ _ _ _ Hpre).
  assert (Htry : forall e w2,
             (watch env (Some tok) w1 = Raised e w2 \/
              (exists s wa,
                  watch env (Some tok) w1 = Returned s wa /\
                  insert_one env (post_disconnect_doc (now env wa)) wa
                  = Raised e w2) \/
              (exists s wa wb,
                  watch env (Some tok) w1 = Returned s wa /\
                  insert_one env (post_disconnect_doc (now env wa)) wa
                  = Returned tt wb /\
                  next env s wb = Raised e w2)) ->
             durability_try env pre tok w1 = Raised e w2).
  { intros e w2 Hraise.
    unfold durability_try, durability_post_events, first_event, get_now, bind.
    destruct Hraise as [Hw | [(s & wa & Hw & Hi) | (s & wa & wb & Hw & Hi & Hn)]].
    - rewrite Hw. reflexivity.
    - rewrite Hw, Hi. reflexivity.
    - rewrite Hw, Hi, Hn. reflexivity. }
  split; [| split].
  - intros e w2 Hexc Hraise.
    rewrite (try_except_raised _ _ _ e w2); [reflexivity | | exact Hexc].
    apply Htry. exact Hraise.
  - intros e w2. unfold try_except, durability_except, ret.
    destruct (durability_try env pre tok w1) as [r w3 | e3 w3 |];
      try discriminate.
    destruct (is_exception e3) eqn:Hexc; [discriminate |].
    intros H. injection H as <- _. exact Hexc.
  - intros e w2 Hexc Hraise.
    apply try_except_escapes; [| exact Hexc].
    apply Htry. exact Hraise.
Qed.

(** C7: [run_all_tests] returns exactly when [setup], then
    [test_resume_token_persistence] with [iterations = 5], then
    [test_stream_durability] with a disconnect of 5 seconds have all
    returned, and what it returns is the one mapping holding the result
    of each scenario under its key. *)
Theorem run_all_tests_gathers w res w' :
  run_all_tests env w = Returned res w' <->
  exists w1 w2,
    setup env w = Returned tt w1 /\
    test_resume_token_persistence env 5 w1 = Returned (resume_token_test res) w2 /\
    test_stream_durability env 5 w2 = Returned (durability_test res) w'.
Proof.
  unfold run_all_tests, default_iterations, default_disconnect_duration.
  split.
  - intros H. split_bind H. unfold ret in H. injection H as <- <-.
    destruct a. simpl. eauto.
  - intros (w1 & w2 & Hs & HA & HB).
    rewrite (bind_step _ _ _ _ _ Hs).
    rewrite (bind_step _ _ _ _ _ HA).
    rewrite (bind_step _ _ _ _ _ HB).
    destruct res. reflexivity.
Qed.

(** C10: [run_all_tests] starts with [setup], and [setup] drops the
    collection before it creates the index: if [drop] does not return,
    nothing else runs; otherwise the collection is empty when the index
    is created and still empty when the first scenario starts.  What
    [drop] and [create_index] do to the stored documents ([contents]) is
    the driver's contract, taken as hypotheses. *)
Theorem run_all_tests_drops_first (contents : W -> list doc) w :
  (forall u u', drop env u = Returned tt u' -> contents u' = []) ->
  (forall key u u', create_index env key u = Returned tt u' -> contents u' = contents u) ->
  match drop env w with
  | Returned _ w0 =>
      contents w0 = [] /\
      match create_index env "_id" w0 with
      | Returned _ w1 =>
          contents w1 = [] /\
          run_all_tests env w =
          (r1 <- test_resume_token_persistence env 5 ;;
           r2 <- test_stream_durability env 5 ;;
           ret {| resume_token_test := r1; durability_test := r2 |}) w1
      | Raised e w1 => run_all_tests env w = Raised e w1
      | Blocked => run_all_tests env w = Blocked
      end
  | Raised e w0 => run_all_tests env w = Raised e w0
  | Blocked => run_all_tests env w = Blocked
  end.
Proof.
  intros Hdrop Hindex.
  unfold run_all_tests, setup, bind.
  destruct (drop env w) as [[] w0 | e w0 |] eqn:Hd; try reflexivity.
  pose proof (Hdrop _ _ Hd) as H0. split; [exact H0 |].
  destruct (create_index env "_id" w0) as [[] w1 | e w1 |] eqn:Hc; try reflexivity.
  split; [| reflexivity].
  rewrite (Hindex _ _ _ Hc). exact H0.
Qed.

End Claims.

(** ** The log-based collection: how streams and tokens move *)

Module LogSourceFacts.
Import LogSource Scenarios.

Lemma length_update {A : Type} (l : list A) i a :
  List.length (update l i a) = List.length l.
Proof.
  revert i. induction l as [| x l IH]; intros [| i]; simpl; auto.
Qed.

Lemma nth_error_update {A : Type} (l : list A) i a x :
  nth_error l i = Some x -> nth_error (update l i a) i = Some a.
Proof.
  revert i. induction l as [| y l IH]; intros [| i]; simpl; try discriminate; auto.
Qed.

Lemma nth_error_app_some {A : Type} (l ext : list A) i x :
  nth_error l i = Some x -> nth_error (l ++ ext) i = Some x.
Proof.
  intros H. rewrite nth_error_app1; [exact H |].
  apply nth_error_Some. congruence.
Qed.

Lemma grows_refl w : grows w w.
Proof.
  split; [reflexivity |]. split; [| auto].
  exists []. rewrite app_nil_r. reflexivity.
Qed.

Lemma grows_trans w w1 w2 : grows w w1 -> grows w1 w2 -> grows w w2.
Proof.
  intros (Hc & (e1 & Hl) & Hok) (Hc' & (e2 & Hl') & Hok').
  split; [congruence |]. split; [| auto].
  exists (e1 ++ e2). rewrite Hl', Hl, app_assoc. reflexivity.
Qed.

Lemma request_frame w w1 :
  request w = Returned tt w1 -> oplog w1 = oplog w /\ cursors w1 = cursors w.
Proof.
  unfold request. destruct (uptime w) as [[| n] |]; intros H;
    try discriminate; injection H as <-; auto.
Qed.

Lemma commit_grows d w : grows w (commit d w).
Proof.
  split; [reflexivity |]. split; [eexists; reflexivity |].
  intros Hok i e. simpl.
  destruct (Nat.lt_ge_cases i (List.length (oplog w))) as [Hi | Hi].
  - rewrite nth_error_app1 by exact Hi. apply Hok.
  - rewrite nth_error_app2 by exact Hi.
    destruct (i - List.length (oplog w))%nat as [| j] eqn:Hj; simpl.
    + intros H. injection H as <-. simpl. lia.
    + destruct j; discriminate.
Qed.

Lemma set_others_grows w w1 ds : grows w w1 -> grows w (set_others w1 ds).
Proof. intros H. exact H. Qed.

Lemma insert_one_grows d w w1 :
  ls_insert_one d w = Returned tt w1 -> grows w w1.
Proof.
  unfold ls_insert_one, bind.
  destruct (request w) as [[] wr | |] eqn:Hr; try discriminate.
  apply request_frame in Hr as (Hl & Hc).
  assert (Hwr : grows w wr).
  { split; [exact Hc |]. split.
    - exists []. rewrite app_nil_r. exact Hl.
    - unfold log_ok. rewrite Hl. auto. }
  destruct (others (commit d wr)) as [| f rest]; intros H; injection H as <-.
  - eapply grows_trans; [exact Hwr | apply commit_grows].
  - eapply grows_trans; [exact Hwr |].
    apply set_others_grows.
    eapply grows_trans; apply commit_grows.
Qed.

Lemma inserts_grow (mk : Z -> Z -> doc) (xs : list Z) w w1 :
  for_each xs (fun i => t <- get_now env ;; insert_one env (mk i t)) w
    = Returned tt w1 ->
  grows w w1.
Proof.
  revert w. induction xs as [| x xs IH]; simpl; intros w H.
  - unfold ret in H. injection H as <-. apply grows_refl.
  - split_bind_once H. split_bind_once Hm.
    unfold get_now in Hm0. injection Hm0 as <- <-.
    destruct a. apply insert_one_grows in Hm.
    eapply grows_trans; [exact Hm | apply IH; exact H].
Qed.

Lemma watch_now_returned w h w1 :
  ls_watch None w = Returned h w1 ->
  oplog w1 = oplog w /\
  h = List.length (cursors w) /\
  exists t, cursors w1 = cursors w ++ [mk_cursor (List.length (oplog w)) t true].
Proof.
  unfold ls_watch, bind, open_cursor.
  destruct (request w) as [[] wr | |] eqn:Hr; try discriminate.
  apply request_frame in Hr as (Hl & Hc).
  intros H. injection H as <- <-. simpl. rewrite Hl, Hc. eauto.
Qed.

Lemma watch_resume_returned tok w h w1 :
  ls_watch (Some tok) w = Returned h w1 ->
  oplog w1 = oplog w /\
  h = List.length (cursors w) /\
  cursors w1 = cursors w ++ [mk_cursor (tok_pos tok) (tok_time tok) true].
Proof.
  unfold ls_watch, bind, open_cursor.
  destruct (request w) as [[] wr | |] eqn:Hr; try discriminate.
  apply request_frame in Hr as (Hl & Hc).
  destruct (_ || _); [discriminate |].
  intros H. injection H as <- <-. simpl. rewrite Hl, Hc. auto.
Qed.

Lemma next_alive h w p t r w1 :
  nth_error (cursors w) h = Some (mk_cursor p t true) ->
  ls_next h w = Returned r w1 ->
  exists c,
    r = Some c /\
    nth_error (oplog w) p = Some c /\
    oplog w1 = oplog w /\
    cursors w1 = update (cursors w) h (mk_cursor (Datatypes.S p) (cluster_time c) true).
Proof.
  intros Hcur. unfold ls_next, bind. rewrite Hcur. simpl.
  destruct (request w) as [[] wr | |] eqn:Hr; try discriminate.
  apply request_frame in Hr as (Hl & Hc).
  destruct (nth_error (oplog wr) p) as [ev |] eqn:Hev; [| discriminate].
  intros H. injection H as <- <-. exists ev. simpl.
  rewrite <- Hl, Hc. auto.
Qed.

Lemma close_frame h w w1 :
  ls_close h w = Returned tt w1 ->
  oplog w1 = oplog w /\ List.length (cursors w1) = List.length (cursors w).
Proof.
  unfold ls_close. destruct (nth_error (cursors w) h);
    intros H; injection H as <-; simpl; auto using length_update.
Qed.

(** What a run of [next] calls on a live stream delivers: the log entries
    from the stream's position on, the stream moving past them. *)
Lemma pulled_log h w evs w' :
  pulled env h w evs w' ->
  forall p t,
    nth_error (cursors w) h = Some (mk_cursor p t true) ->
    oplog w' = oplog w /\
    List.length (cursors w') = List.length (cursors w) /\
    (exists t', nth_error (cursors w') h
                = Some (mk_cursor (p + List.length evs) t' true)) /\
    (forall i, (i < List.length evs)%nat ->
               nth_error evs i = nth_error (oplog w) (p + i)).
Proof.
  induction 1 as [w | w c w1 evs w2 Hnext _ IH]; intros p t Hcur.
  - split; [reflexivity |]. split; [reflexivity |]. split.
    + exists t. simpl. rewrite Nat.add_0_r. exact Hcur.
    + simpl. lia.
  - simpl in Hnext.
    destruct (next_alive _ _ _ _ _ _ Hcur Hnext) as (c0 & Hc0 & Hlog & Hl & Hcs).
    injection Hc0 as <-.
    assert (Hcur1 : nth_error (cursors w1) h
                    = Some (mk_cursor (Datatypes.S p) (cluster_time c) true)).
    { rewrite Hcs. eapply nth_error_update. exact Hcur. }
    destruct (IH _ _ Hcur1) as (Hl2 & Hlen & (t' & Hcur2) & Hnth).
    split; [congruence |].
    split; [rewrite Hlen, Hcs; apply length_update |].
    split.
    + exists t'. rewrite Hcur2. simpl. do 3 f_equal. lia.
    + intros [| i] Hi; simpl.
      * rewrite Nat.add_0_r. symmetry. exact Hlog.
      * rewrite Hnth by (simpl in Hi; lia). rewrite Hl. f_equal. lia.
Qed.

(** On a live stream the collection loop, when it returns, has delivered
    exactly [K] log entries. *)
Lemma collect_log h K w evs w' p t :
  1 <= K ->
  nth_error (cursors w) h = Some (mk_cursor p t true) ->
  collect env h K [] w = Returned evs w' ->
  List.length evs = Z.to_nat K /\
  oplog w' = oplog w /\
  List.length (cursors w') = List.length (cursors w) /\
  (exists t', nth_error (cursors w') h
              = Some (mk_cursor (p + List.length evs) t' true)) /\
  (forall i, (i < List.length evs)%nat ->
             nth_error evs i = nth_error (oplog w) (p + i)).
Proof.
  intros HK Hcur Hcol.
  apply (collect_returned env h K (Z.to_nat K) [] w evs w') in Hcol;
    [| change (len (@nil change)) with 0; lia
     | change (len (@nil change)) with 0; lia].
  destruct Hcol as (more & Heq & [[Hp Hn] | (w2 & Hp & _ & Hstop)]);
    simpl in Heq; subst more.
  - split; [unfold len in Hn; lia |].
    exact (pulled_log _ _ _ _ Hp _ _ Hcur).
  - destruct (pulled_log _ _ _ _ Hp _ _ Hcur) as (_ & _ & (t' & Hcur2) & _).
    simpl in Hstop.
    destruct (next_alive _ _ _ _ _ _ Hcur2 Hstop) as (c & Hc & _).
    discriminate.
Qed.

Lemma drop_clears u u' : ls_drop u = Returned tt u' -> documents u' = [].
Proof.
  unfold ls_drop, bind. destruct (request u) as [[] ur | |]; try discriminate.
  intros H. injection H as <-. reflexivity.
Qed.

Lemma create_index_keeps key u u' :
  ls_create_index key u = Returned tt u' -> documents u' = documents u.
Proof.
  unfold ls_create_index, bind, request.
  destruct (uptime u) as [[| n] |]; intros H; try discriminate;
    injection H as <-; reflexivity.
Qed.

Lemma log_ok_quiet retention : log_ok (quiet retention).
Proof. intros [| i] e H; discriminate H. Qed.

Lemma In_update {A : Type} (l : list A) i a x :
  In x (update l i a) -> x = a \/ In x l.
Proof.
  revert i. induction l as [| y l IH]; intros [| i]; simpl; try tauto.
  - intros [-> | H]; auto.
  - intros [-> | H]; auto. destruct (IH _ H); auto.
Qed.

Lemma request_healthy w : healthy w -> request w = Returned tt w.
Proof.
  intros (Hu & Hl & _). destruct w. simpl in Hu, Hl. subst.
  unfold request, set_clock. simpl. rewrite Z.add_0_r. reflexivity.
Qed.

Lemma commit_healthy d w : healthy w -> healthy (commit d w).
Proof.
  intros (Hu & Hl & Hw & Hlog & Hcur).
  repeat split; simpl; auto.
  intros e He. apply in_app_or in He as [He | [<- | []]]; [auto |]. simpl. lia.
Qed.

Lemma insert_one_healthy d w :
  healthy w ->
  exists w1,
    insert_one env d w = Returned tt w1 /\ healthy w1 /\
    (List.length (oplog w) < List.length (oplog w1))%nat.
Proof.
  intros Hw. simpl. unfold ls_insert_one, bind.
  rewrite (request_healthy w Hw).
  pose proof (commit_healthy d w Hw) as H1.
  assert (Hlen : forall f u, List.length (oplog (commit f u))
                             = Datatypes.S (List.length (oplog u))).
  { intros f u. simpl. rewrite length_app. simpl. lia. }
  destruct (others (commit d w)) as [| f rest] eqn:Ho.
  - eexists. split; [reflexivity |]. split; [exact H1 |]. rewrite Hlen. lia.
  - eexists. split; [reflexivity |]. split.
    + pose proof (commit_healthy f _ H1) as H2. exact H2.
    + change (oplog (set_others (commit f (commit d w)) rest))
        with (oplog (commit f (commit d w))).
      rewrite !Hlen. lia.
Qed.

Lemma inserts_healthy (mk : Z -> Z -> doc) (xs : list Z) w :
  healthy w ->
  exists w1,
    for_each xs (fun i => t <- get_now env ;; insert_one env (mk i t)) w
      = Returned tt w1 /\
    healthy w1 /\
    (List.length (oplog w) + List.length xs <= List.length (oplog w1))%nat.
Proof.
  revert w. induction xs as [| x xs IH]; intros w Hw.
  - exists w. split; [reflexivity |]. split; [exact Hw | simpl; lia].
  - destruct (insert_one_healthy (mk x (clock w)) w Hw) as (w1 & Hi & H1 & Hlen).
    destruct (IH w1 H1) as (w2 & Hrest & H2 & Hlen2).
    exists w2. split; [| split; [exact H2 | simpl; lia]].
    change (for_each (x :: xs) ?body w) with (bind (body x) (fun _ => for_each xs body) w).
    erewrite bind_step; [exact Hrest |].
    erewrite bind_step; [exact Hi | reflexivity].
Qed.

Lemma watch_now_healthy w :
  healthy w ->
  exists w1, watch env None w = Returned (List.length (cursors w)) w1 /\ healthy w1.
Proof.
  intros Hw. simpl. unfold ls_watch, bind, open_cursor.
  rewrite (request_healthy w Hw). eexists. split; [reflexivity |].
  destruct Hw as (Hu & Hl & Hwin & Hlog & Hcur).
  repeat split; simpl; auto.
  intros c Hc. apply in_app_or in Hc as [Hc | [<- | []]]; [auto |]. simpl. lia.
Qed.

Lemma watch_resume_healthy tok w :
  healthy w ->
  clock w - tok_time tok <= window w ->
  (tok_pos tok <= List.length (oplog w))%nat ->
  exists w1, watch env (Some tok) w = Returned (List.length (cursors w)) w1 /\ healthy w1.
Proof.
  intros Hw Htime Hpos. simpl. unfold ls_watch, bind, open_cursor.
  rewrite (request_healthy w Hw).
  assert (Hfresh : (clock w - tok_time tok >? window w) = false).
  { apply not_true_is_false. intros H. apply Z.gtb_lt in H. lia. }
  assert (Hin : (List.length (oplog w) <? tok_pos tok)%nat = false).
  { apply Nat.ltb_ge. exact Hpos. }
  rewrite Hfresh, Hin. simpl. eexists. split; [reflexivity |].
  destruct Hw as (Hu & Hl & Hwin & Hlog & Hcur).
  repeat split; simpl; auto.
  intros c Hc. apply in_app_or in Hc as [Hc | [<- | []]]; [auto |]. simpl. lia.
Qed.

Lemma next_healthy h w p t ev :
  healthy w ->
  nth_error (cursors w) h = Some (mk_cursor p t true) ->
  nth_error (oplog w) p = Some ev ->
  exists w1,
    next env h w = Returned (Some ev) w1 /\ healthy w1 /\
    oplog w1 = oplog w /\
    nth_error (cursors w1) h
    = Some (mk_cursor (Datatypes.S p) (cluster_time ev) true).
Proof.
  intros Hw Hcur Hev. simpl. unfold ls_next, bind. rewrite Hcur. simpl.
  rewrite (request_healthy w Hw), Hev. eexists. split; [reflexivity |].
  split; [| split; [reflexivity | simpl; eapply nth_error_update; exact Hcur]].
  destruct Hw as (Hu & Hl & Hwin & Hlog & Hcs).
  repeat split; simpl; auto.
  intros c Hc. apply In_update in Hc as [-> | Hc]; [| auto].
  simpl. apply Hlog. eapply nth_error_In. exact Hev.
Qed.

Lemma close_healthy h w c :
  healthy w ->
  nth_error (cursors w) h = Some c ->
  exists w1,
    close env h w = Returned tt w1 /\ healthy w1 /\
    In (mk_cursor (cur_pos c) (cur_time c) false) (cursors w1).
Proof.
  intros Hw Hc. simpl. unfold ls_close. rewrite Hc.
  eexists. split; [reflexivity |]. split.
  - destruct Hw as (Hu & Hl & Hwin & Hlog & Hcs).
    repeat split; simpl; auto.
    intros c' Hc'. apply In_update in Hc' as [-> | Hc']; [| auto].
    simpl. apply Hcs. eapply nth_error_In. exact Hc.
  - simpl. eapply nth_error_In. eapply nth_error_update. exact Hc.
Qed.

(** On a healthy deployment the collection loop returns as soon as the log
    holds the changes it still needs. *)
Lemma collect_healthy h K (m : nat) :
  forall events w p t,
    healthy w ->
    nth_error (cursors w) h = Some (mk_cursor p t true) ->
    len events + Z.of_nat (Datatypes.S m) = K ->
    (p + Datatypes.S m <= List.length (oplog w))%nat ->
    exists evs w', collect env h K events w = Returned evs w' /\ healthy w'.
Proof.
  induction m as [| m IH]; intros events w p t Hw Hcur HK Hlen.
  - destruct (nth_error (oplog w) p) as [ev |] eqn:Hev;
      [| apply nth_error_None in Hev; lia].
    destruct (next_healthy _ _ _ _ _ Hw Hcur Hev) as (w1 & Hn & H1 & _).
    rewrite collect_step, Hn.
    assert (Hb : (len (events ++ [ev]) >=? K) = true).
    { rewrite Z.geb_leb. apply Z.leb_le. rewrite len_app.
      change (len [ev]) with 1. lia. }
    rewrite Hb. eauto.
  - destruct (nth_error (oplog w) p) as [ev |] eqn:Hev;
      [| apply nth_error_None in Hev; lia].
    destruct (next_healthy _ _ _ _ _ Hw Hcur Hev) as (w1 & Hn & H1 & Hl1 & Hc1).
    rewrite collect_step, Hn.
    assert (Hb : (len (events ++ [ev]) >=? K) = false).
    { rewrite Z.geb_leb. apply Z.leb_gt. rewrite len_app.
      change (len [ev]) with 1. lia. }
    rewrite Hb. eapply IH; [exact H1 | exact Hc1 | | rewrite Hl1; lia].
    rewrite len_app. change (len [ev]) with 1. lia.
Qed.

Lemma healthy_quiet retention : 0 <= retention -> healthy (quiet retention).
Proof.
  intros H. repeat split; simpl; auto; intros ? [].
Qed.

(** The iteration of a stream stops only on a closed stream, and then
    nothing changes. *)
Lemma next_stops h w w1 : ls_next h w = Returned None w1 -> w1 = w.
Proof.
  unfold ls_next, bind.
  destruct (nth_error (cursors w) h) as [c |]; [| discriminate].
  destruct (alive c).
  - destruct (request w) as [[] wr | |]; try discriminate.
    destruct (nth_error (oplog wr) (cur_pos c)); discriminate.
  - intros H. injection H as <-. reflexivity.
Qed.

(** The end of an iteration leaves the token of the stream alone. *)
Lemma stop_keeps_token h u u' :
  next env h u = Returned None u' ->
  resume_token env h u' = resume_token env h u.
Proof. simpl. intros H. apply next_stops in H. subst u'. reflexivity. Qed.

(** So it does when the server ends the stream. *)
Lemma ending_stop_keeps_token h u u' :
  next ending h u = Returned None u' ->
  resume_token ending h u' = resume_token ending h u.
Proof.
  simpl. unfold ending_next.
  destruct (ls_next h u) as [r u1 | |] eqn:Hn.
  - intros H. injection H as -> <-. apply next_stops in Hn. subst u1. reflexivity.
  - discriminate.
  - unfold bind, ret, ls_close, ls_resume_token.
    destruct (nth_error (cursors u) h) as [c |] eqn:Hc;
      intros H; injection H as <-.
    + simpl. rewrite (nth_error_update _ _ _ _ Hc). reflexivity.
    + rewrite Hc. reflexivity.
Qed.

End LogSourceFacts.

(** ** The collection loop and the token read after it *)

(** C6, as amended: for every [count >= 1] the collection loop returns
    exactly when repeated [next] calls delivered [count] events, or when
    the stream ended ([StopIteration]) after [M < count] events: it then
    returns exactly the [M] events delivered and raises nothing.  The
    token is read from the stream after the loop: where the end of an
    iteration leaves the stream's token alone, as it does on the
    log-based collection (last part), the token captured is in both
    cases the token as of the last event delivered, the one the stream
    had in the state [w2] that the delivery of that event left.  There is
    no timeout: if the stream neither delivers nor ends the loop does not
    return, and an exception raised by [next] leaves the loop. *)
Theorem collect_contract {W S T E : Type} (env : Env W S T E) cs count w :
  1 <= count ->
  (forall evs w',
      collect env cs count [] w = Returned evs w' <->
      (pulled env cs w evs w' /\ len evs = count) \/
      (exists w2, pulled env cs w evs w2 /\ len evs < count /\
                  next env cs w2 = Returned None w')) /\
  ((forall u u',
       next env cs u = Returned None u' ->
       resume_token env cs u' = resume_token env cs u) ->
   forall evs w2 w',
     pulled env cs w evs w2 ->
     (len evs = count /\ w' = w2) \/
     (len evs < count /\ next env cs w2 = Returned None w') ->
     (events <- collect env cs count [] ;;
      last_resume_token <- get_resume_token env cs ;;
      ret (events, last_resume_token)) w
     = Returned (evs, resume_token env cs w2) w') /\
  (forall evs w2,
      pulled env cs w evs w2 -> len evs < count ->
      next env cs w2 = Blocked ->
      collect env cs count [] w = Blocked) /\
  (forall evs w2 e w',
      pulled env cs w evs w2 -> len evs < count ->
      next env cs w2 = Raised e w' ->
      collect env cs count [] w = Raised e w') /\
  (forall h u u',
      next LogSource.env h u = Returned None u' ->
      resume_token LogSource.env h u' = resume_token LogSource.env h u).
Proof.
  intros Hcount. split; [| split; [| split; [| split]]].
  - intros evs w'.
    rewrite (collect_returned env cs count (Z.to_nat count) [] w evs w');
      [| change (len (@nil E)) with 0; lia | change (len (@nil E)) with 0; lia].
    simpl. split.
    + intros (more & -> & H). exact H.
    + intros H. exists evs. split; [reflexivity | exact H].
  - intros Hstop evs w2 w' Hp Hend.
    assert (Hcol : collect env cs count [] w = Returned evs w').
    { apply (collect_returned env cs count (Z.to_nat count) [] w evs w');
        [change (len (@nil E)) with 0; lia | change (len (@nil E)) with 0; lia |].
      exists evs. split; [reflexivity |].
      destruct Hend as [[Hlen ->] | [Hlen Hnext]]; [left; auto |].
      right. exists w2. auto. }
    rewrite (bind_step _ _ _ _ _ Hcol).
    unfold get_resume_token, bind, ret.
    destruct Hend as [[_ ->] | [_ Hnext]]; [reflexivity |].
    rewrite (Hstop _ _ Hnext). reflexivity.
  - intros evs w2 Hp Hlen Hnext.
    rewrite (collect_pulled env cs count w evs w2 Hp []); [| exact Hlen].
    rewrite collect_step, Hnext. reflexivity.
  - intros evs w2 e w' Hp Hlen Hnext.
    rewrite (collect_pulled env cs count w evs w2 Hp []); [| exact Hlen].
    rewrite collect_step, Hnext. reflexivity.
  - exact LogSourceFacts.stop_keeps_token.
Qed.

(** ** The claim about the resume boundary, on the log-based collection *)

Module Resume.
Import LogSource Scenarios LogSourceFacts.

(** C2: for every [K >= 1], when scenario A with [iterations = K] runs on
    the log-based collection, the first stream delivers the [K] changes
    appended after it was opened, its token is captured after the K-th,
    and the stream reopened at that token delivers the (K+1)-th appended
    change first: the change right after the last one collected, neither
    that one again nor a later one. *)
Theorem no_gap_resume K w evA evB w' :
  1 <= K ->
  log_ok w ->
  resume_token_events env K w = Returned (evA, evB) w' ->
  let p0 := List.length (oplog w) in
  let k := Z.to_nat K in
  List.length evA = k /\
  (forall i, (i < k)%nat -> nth_error evA i = nth_error (oplog w') (p0 + i)) /\
  exists last first,
    nth_error evA (k - 1) = Some last /\
    hd_error evB = Some first /\
    nth_error (oplog w') (p0 + k) = Some first /\
    seq_no first = Datatypes.S (seq_no last).
Proof.
  intros HK Hok H p0 k.
  apply resume_token_events_steps in H
    as (cs & w1 & w2 & w3 & w4 & cs' & w5 & w6 & w7 &
        Hw & Hins & Hcol & Hclose & Hres & Hins' & Hcol' & Hclose').
  simpl in Hw, Hclose, Hres, Hclose'.
  apply watch_now_returned in Hw as (Hl1 & Hcs & (t0 & Hc1)).
  apply inserts_grow in Hins as (Hc2 & (ext2 & Hl2) & Hok2).
  assert (Hcur2 : nth_error (cursors w2) cs = Some (mk_cursor p0 t0 true)).
  { rewrite Hc2, Hc1, Hcs, nth_error_app2 by lia.
    rewrite Nat.sub_diag. reflexivity. }
  destruct (collect_log _ _ _ _ _ _ _ HK Hcur2 Hcol)
    as (HlenA & Hl3 & Hn3 & (t3 & Hcur3) & HnthA).
  apply close_frame in Hclose as (Hl4 & Hn4).
  unfold ls_resume_token in Hres. rewrite Hcur3 in Hres.
  apply watch_resume_returned in Hres as (Hl5 & Hcs' & Hc5).
  simpl in Hc5.
  apply inserts_grow in Hins' as (Hc6 & (ext6 & Hl6) & Hok6).
  assert (Hcur6 : nth_error (cursors w6) cs'
                  = Some (mk_cursor (p0 + List.length evA) t3 true)).
  { rewrite Hc6, Hc5, Hcs', nth_error_app2 by lia.
    rewrite Nat.sub_diag. reflexivity. }
  destruct (collect_log _ _ _ _ _ _ _ HK Hcur6 Hcol')
    as (HlenB & Hl7 & _ & _ & HnthB).
  apply close_frame in Hclose' as (Hl8 & _).
  assert (Hlog : oplog w' = oplog w2 ++ ext6) by congruence.
  assert (Hokw' : log_ok w').
  { assert (Hok1 : log_ok w1) by (unfold log_ok; rewrite Hl1; exact Hok).
    assert (Hok5 : log_ok w5).
    { unfold log_ok. rewrite Hl5, Hl4, Hl3. apply Hok2, Hok1. }
    unfold log_ok. rewrite Hl8, Hl7. apply Hok6, Hok5. }
  assert (HA : forall i, (i < k)%nat ->
                         nth_error evA i = nth_error (oplog w') (p0 + i)).
  { intros i Hi. rewrite HnthA by lia.
    destruct (nth_error evA i) as [e |] eqn:He.
    - rewrite HnthA in He by lia.
      rewrite Hlog. rewrite (nth_error_app_some _ _ _ _ He). exact He.
    - apply nth_error_None in He. lia. }
  split; [exact HlenA |]. split; [exact HA |].
  assert (Hk : (0 < k)%nat) by lia.
  destruct (nth_error evA (k - 1)) as [last |] eqn:Hlast;
    [| apply nth_error_None in Hlast; lia].
  destruct evB as [| first evB]; [simpl in HlenB; lia |].
  exists last, first. split; [reflexivity |]. split; [reflexivity |].
  assert (Hfirst : nth_error (oplog w') (p0 + k) = Some first).
  { specialize (HnthB 0%nat ltac:(simpl; lia)). simpl in HnthB.
    replace (p0 + k)%nat with (p0 + List.length evA + 0)%nat by lia.
    rewrite Hl8, Hl7. symmetry. exact HnthB. }
  split; [exact Hfirst |].
  rewrite HA in Hlast by lia.
  rewrite (Hokw' _ _ Hfirst), (Hokw' _ _ Hlast). lia.
Qed.

(** On a healthy deployment scenario A returns for every [K >= 1], with
    [K] events in each buffer and [success = True]. *)
Theorem scenario_A_succeeds K w :
  1 <= K ->
  healthy w ->
  exists w',
    test_resume_token_persistence env K w =
    Returned {| initial_events := K; resumed_events := K; success := true |} w'.
Proof.
  intros HK Hw.
  assert (Hrange : List.length (range K) = Z.to_nat K).
  { unfold range. rewrite length_map, length_seq. reflexivity. }
  assert (Hneed : len (@nil change) + Z.of_nat (Datatypes.S (Z.to_nat K - 1)) = K).
  { change (len (@nil change)) with 0. lia. }
  (* the first stream *)
  destruct (watch_now_healthy w Hw) as (w1 & Hwatch & H1).
  pose proof Hwatch as Hf. simpl in Hf.
  apply watch_now_returned in Hf as (Hl1 & _ & (t0 & Hc1)).
  destruct (inserts_healthy initial_doc (range K) w1 H1) as (w2 & Hins & H2 & Hlen2).
  pose proof (inserts_grow _ _ _ _ Hins) as (Hc2 & _ & _).
  set (cs := List.length (cursors w)) in *.
  set (p0 := List.length (oplog w)) in *.
  assert (Hcur2 : nth_error (cursors w2) cs = Some (mk_cursor p0 t0 true)).
  { rewrite Hc2, Hc1. subst cs. rewrite nth_error_app2 by lia.
    rewrite Nat.sub_diag. reflexivity. }
  destruct (collect_healthy cs K (Z.to_nat K - 1) [] w2 p0 t0 H2 Hcur2 Hneed)
    as (evA & w3 & Hcol & H3); [rewrite Hl1 in Hlen2; lia |].
  destruct (collect_log _ _ _ _ _ _ _ HK Hcur2 Hcol)
    as (HlenA & Hl3 & Hn3 & (t3 & Hcur3) & _).
  destruct (close_healthy cs w3 _ H3 Hcur3) as (w4 & Hclose & H4 & Hin4).
  pose proof Hclose as Hf. simpl in Hf. apply close_frame in Hf as (Hl4 & Hn4).
  (* the token and the second stream *)
  assert (Htok : resume_token env cs w3 = mk_token (p0 + List.length evA) t3).
  { simpl. unfold ls_resume_token. rewrite Hcur3. reflexivity. }
  destruct (watch_resume_healthy (mk_token (p0 + List.length evA) t3) w4 H4)
    as (w5 & Hres & H5).
  { destruct H4 as (_ & _ & _ & _ & Hcs). exact (Hcs _ Hin4). }
  { simpl. rewrite Hl4, Hl3. rewrite Hl1 in Hlen2. lia. }
  pose proof Hres as Hf. simpl in Hf.
  apply watch_resume_returned in Hf as (Hl5 & _ & Hc5). simpl in Hc5.
  rewrite <- Htok in Hres.
  destruct (inserts_healthy resumed_doc (range K) w5 H5) as (w6 & Hins' & H6 & Hlen6).
  pose proof (inserts_grow _ _ _ _ Hins') as (Hc6 & _ & _).
  set (cs' := List.length (cursors w4)) in *.
  assert (Hcur6 : nth_error (cursors w6) cs'
                  = Some (mk_cursor (p0 + List.length evA) t3 true)).
  { rewrite Hc6, Hc5. subst cs'. rewrite nth_error_app2 by lia.
    rewrite Nat.sub_diag. reflexivity. }
  destruct (collect_healthy cs' K (Z.to_nat K - 1) [] w6 _ _ H6 Hcur6 Hneed)
    as (evB & w7 & Hcol' & H7).
  { rewrite Hl5, Hl4, Hl3 in Hlen6. rewrite Hl1 in Hlen2. lia. }
  destruct (collect_log _ _ _ _ _ _ _ HK Hcur6 Hcol')
    as (HlenB & _ & _ & (t7 & Hcur7) & _).
  destruct (close_healthy cs' w7 _ H7 Hcur7) as (w' & Hclose' & _).
  (* the result *)
  exists w'. apply test_resume_token_persistence_returned.
  exists evA, evB. split.
  - exact (resume_token_events_run env K w cs w1 w2 evA w3 w4 cs' w5 w6 evB w7 w'
             Hwatch Hins Hcol Hclose Hres Hins' Hcol' Hclose').
  - assert (HA : len evA = K) by (unfold len; lia).
    assert (HB : len evB = K) by (unfold len; lia).
    rewrite HA, HB, Z.eqb_refl. reflexivity.
Qed.

End Resume.

(** ** Runs on the log-based collection *)

(** Solve [run = Returned ?a ?w] (or [Raised], [Blocked]) by evaluating the
    run. *)
Ltac evaluate :=
  match goal with
  | |- ?run = _ =>
      let v := eval vm_compute in run in
      transitivity v; [vm_compute; reflexivity | reflexivity]
  end.

(** Name the outcome of a run. *)
Ltac evaluate_as run H :=
  let v := eval vm_compute in run in
  assert (H : run = v) by (vm_compute; reflexivity).

Module Runs.
Import LogSource Scenarios LogSourceFacts.

(** Three iterations on a quiet collection: both counts are 3 and the run
    succeeds. *)
Lemma resume_counts_bounded_run :
  1 <= 3 /\
  exists r w',
    test_resume_token_persistence env 3 (quiet 10) = Returned r w' /\
    initial_events r <= 3 /\ resumed_events r <= 3 /\
    (success r = true <-> resumed_events r = 3).
Proof.
  split; [lia |]. eexists. eexists. split; [evaluate |].
  eapply (resume_counts_bounded env 3 (quiet 10)); [lia | evaluate].
Defined.

(** Three iterations on a quiet collection: the verdict follows the size
    of the second buffer. *)
Lemma resume_success_iff_count_run :
  exists events new_events w',
    resume_token_events env 3 (quiet 10) = Returned (events, new_events) w' /\
    exists r,
      test_resume_token_persistence env 3 (quiet 10) = Returned r w' /\
      initial_events r = len events /\
      resumed_events r = len new_events /\
      (success r = true <-> len new_events = 3).
Proof.
  eexists. eexists. eexists. split; [evaluate |].
  apply (resume_success_iff_count env 3 (quiet 10)). evaluate.
Defined.

(** C1 as stated fails: on a collection another client writes to, one
    iteration reports success although the resumed stream delivered the
    other client's document, not the post-resume append. *)
Lemma resume_success_ignores_events :
  ~ (forall iterations w eventsA eventsB w' r,
        1 <= iterations ->
        resume_token_events env iterations w = Returned (eventsA, eventsB) w' ->
        test_resume_token_persistence env iterations w = Returned r w' ->
        (success r = true <-> spec_verified_A iterations eventsA eventsB)).
Proof.
  intros H.
  evaluate_as (resume_token_events env 1 shared) Hev.
  evaluate_as (test_resume_token_persistence env 1 shared) Hres.
  pose proof (H 1 shared _ _ _ _ ltac:(lia) Hev Hres) as [Hsuccess _].
  destruct (Hsuccess eq_refl) as (_ & _ & Hdocs).
  vm_compute in Hdocs. discriminate Hdocs.
Defined.

(** Three iterations on a quiet collection: the reopened stream starts
    with the fourth change. *)
Lemma no_gap_resume_run :
  1 <= 3 /\ log_ok (quiet 10) /\
  exists evA evB w',
    resume_token_events env 3 (quiet 10) = Returned (evA, evB) w' /\
    List.length evA = 3%nat /\
    (forall i, (i < 3)%nat -> nth_error evA i = nth_error (oplog w') (0 + i)) /\
    exists last first,
      nth_error evA 2 = Some last /\
      hd_error evB = Some first /\
      nth_error (oplog w') 3 = Some first /\
      seq_no first = Datatypes.S (seq_no last).
Proof.
  split; [lia |]. split; [apply log_ok_quiet |].
  eexists. eexists. eexists. split; [evaluate |].
  apply (Resume.no_gap_resume 3 (quiet 10));
    [lia | apply log_ok_quiet | evaluate].
Defined.

(** C3 fails on the code: on a deployment that takes a second per
    request and keeps two seconds of history, the token captured by
    [test_resume_token_persistence] has expired when the stream is
    reopened; the error leaves the method and [run_all_tests], and no
    result is produced for either scenario. *)
Theorem resume_failure_aborts_run :
  exists w1 w2,
    setup env slow = Returned tt w1 /\
    test_resume_token_persistence env 5 w1 = Raised ResumeError w2 /\
    run_all_tests env slow = Raised ResumeError w2.
Proof.
  eexists. eexists. split; [evaluate |]. split; evaluate.
Qed.

(** A disconnect of five seconds on a quiet collection: one event comes
    back and the run succeeds. *)
Lemma durability_success_iff_event_run :
  exists pre tok w1 r w2,
    durability_pre env 5 (quiet 10) = Returned (pre, tok) w1 /\
    test_stream_durability env 5 (quiet 10) = Returned r w2 /\
    (d_success r = true <->
     exists post,
       durability_post_events env tok w1 = Returned post w2 /\ 0 < len post) /\
    (d_success r = true -> 0 < post_disconnect_events r /\ error r = None).
Proof.
  evaluate_as (durability_pre env 5 (quiet 10)) Hpre.
  evaluate_as (test_stream_durability env 5 (quiet 10)) Hres.
  do 5 eexists. split; [exact Hpre |]. split; [exact Hres |].
  exact (durability_success_iff_event env 5 (quiet 10) _ _ _ _ _ Hpre Hres).
Defined.

(** C4 as stated fails: when another client writes during the run, the
    reopened stream delivers that client's document first; the method
    reports success although the post-disconnect document was not the
    one delivered. *)
Lemma durability_success_ignores_event :
  ~ (forall d w pre tok w1 post w2 r,
        durability_pre env d w = Returned (pre, tok) w1 ->
        durability_post_events env tok w1 = Returned post w2 ->
        test_stream_durability env d w = Returned r w2 ->
        (d_success r = true <-> spec_verified_B post)).
Proof.
  intros H.
  evaluate_as (durability_pre env 5 shared) Hpre.
  match type of Hpre with
  | _ = Returned (_, ?tok) ?w1 =>
      evaluate_as (durability_post_events env tok w1) Hpost
  end.
  evaluate_as (test_stream_durability env 5 shared) Hres.
  pose proof (H 5 shared _ _ _ _ _ _ Hpre Hpost Hres) as [Hsuccess _].
  destruct (Hsuccess eq_refl) as (_ & e & Hhd & Hphase).
  injection Hhd as <-. vm_compute in Hphase. discriminate Hphase.
Defined.

(** A disconnect of five seconds on a deployment that keeps three seconds
    of history: the reopening fails and the failure is reported. *)
Lemma durability_resume_error_run :
  exists pre tok w1 w2,
    durability_pre env 5 short_lived = Returned (pre, tok) w1 /\
    watch env (Some tok) w1 = Raised ResumeError w2 /\
    len pre = 1 /\
    test_stream_durability env 5 short_lived =
    Returned {| pre_disconnect_events := len pre;
                post_disconnect_events := 0;
                d_success := false;
                error := Some (str ResumeError) |} w2.
Proof.
  evaluate_as (durability_pre env 5 short_lived) Hpre.
  match type of Hpre with
  | _ = Returned (?pre, ?tok) ?w1 =>
      evaluate_as (watch env (Some tok) w1) Hw; exists pre, tok, w1
  end.
  match type of Hw with _ = Raised _ ?w2 => exists w2 end.
  split; [exact Hpre |]. split; [exact Hw |]. split; [reflexivity |].
  exact (durability_resume_error env 5 short_lived _ _ _ _ _ Hpre Hw).
Defined.

(** The server goes away between the reopening and the post-disconnect
    insert: the connection error is reported, not raised. *)
Lemma durability_catches_all_run :
  exists pre tok w1 s wa w2,
    durability_pre env 5 flaky = Returned (pre, tok) w1 /\
    watch env (Some tok) w1 = Returned s wa /\
    insert_one env (post_disconnect_doc (now env wa)) wa = Raised AutoReconnect w2 /\
    test_stream_durability env 5 flaky =
    Returned {| pre_disconnect_events := len pre;
                post_disconnect_events := 0;
                d_success := false;
                error := Some (str AutoReconnect) |} w2.
Proof.
  evaluate_as (durability_pre env 5 flaky) Hpre.
  match type of Hpre with
  | _ = Returned (?pre, ?tok) ?w1 =>
      evaluate_as (watch env (Some tok) w1) Hw;
      match type of Hw with
      | _ = Returned ?s ?wa =>
          evaluate_as (insert_one env (post_disconnect_doc (now env wa)) wa) Hi;
          exists pre, tok, w1, s, wa
      end
  end.
  match type of Hi with _ = Raised _ ?w2 => exists w2 end.
  split; [exact Hpre |]. split; [exact Hw |]. split; [exact Hi |].
  apply (proj1 (durability_catches_all env 5 flaky _ _ _ Hpre));
    [reflexivity | right; left; eauto].
Defined.

(** C9 as stated fails: [except Exception] does not catch every
    exception.  When the operator interrupts the program while the
    stream is reopened, the [KeyboardInterrupt] raised inside the [try]
    leaves the method and no result is returned. *)
Lemma durability_lets_interrupt_through :
  ~ (forall d w pre tok w1 e w2,
        durability_pre interrupted d w = Returned (pre, tok) w1 ->
        watch interrupted (Some tok) w1 = Raised e w2 ->
        test_stream_durability interrupted d w =
        Returned {| pre_disconnect_events := len pre;
                    post_disconnect_events := 0;
                    d_success := false;
                    error := Some (str e) |} w2).
Proof.
  intros H.
  evaluate_as (durability_pre interrupted 5 (quiet 10)) Hpre.
  match type of Hpre with
  | _ = Returned (_, ?tok) ?w1 =>
      evaluate_as (watch interrupted (Some tok) w1) Hw
  end.
  pose proof (H 5 (quiet 10) _ _ _ _ _ Hpre Hw) as Hres.
  vm_compute in Hres. discriminate Hres.
Defined.

(** The whole program on a quiet collection: both results, together. *)
Lemma run_all_tests_gathers_run :
  exists w',
    run_all_tests env (quiet 10) =
    Returned {| resume_token_test :=
                  {| initial_events := 5; resumed_events := 5; success := true |};
                durability_test :=
                  {| pre_disconnect_events := 1;
                     post_disconnect_events := 1;
                     d_success := true;
                     error := None |} |} w'.
Proof.
  eexists. apply (run_all_tests_gathers env (quiet 10)).
  do 2 eexists. split; [evaluate |]. split; evaluate.
Defined.

(** The whole program on a collection that already holds two documents:
    they are gone before the first scenario starts. *)
Lemma run_all_tests_drops_first_run :
  documents used <> [] /\
  exists w0 w1,
    drop env used = Returned tt w0 /\ documents w0 = [] /\
    create_index env "_id" w0 = Returned tt w1 /\ documents w1 = [] /\
    run_all_tests env used =
    (r1 <- test_resume_token_persistence env 5 ;;
     r2 <- test_stream_durability env 5 ;;
     ret {| resume_token_test := r1; durability_test := r2 |}) w1.
Proof.
  split; [discriminate |].
  pose proof (run_all_tests_drops_first env documents used
                drop_clears create_index_keeps) as H.
  evaluate_as (drop env used) Hd. rewrite Hd in H.
  destruct H as [H0 H].
  match type of Hd with
  | _ = Returned _ ?w0 => evaluate_as (create_index env "_id" w0) Hc
  end.
  rewrite Hc in H. destruct H as [H1 H].
  do 2 eexists. split; [exact Hd |]. split; [exact H0 |].
  split; [exact Hc |]. split; [exact H1 | exact H].
Defined.

(** One change is pending, two are asked for, and the server ends the
    stream after the first: the loop returns that one change and raises
    nothing, and the token captured after the loop is the one the stream
    had when the change was delivered, which points behind it. *)
Lemma collect_contract_run :
  1 <= 2 /\
  exists ev w2 w',
    next ending 0%nat one_pending = Returned (Some ev) w2 /\
    next ending 0%nat w2 = Returned None w' /\
    len [ev] < 2 /\
    collect ending 0%nat 2 [] one_pending = Returned [ev] w' /\
    resume_token ending 0%nat w2 = mk_token (Datatypes.S (seq_no ev)) (cluster_time ev) /\
    (events <- collect ending 0%nat 2 [] ;;
     last_resume_token <- get_resume_token ending 0%nat ;;
     ret (events, last_resume_token)) one_pending
    = Returned ([ev], resume_token ending 0%nat w2) w'.
Proof.
  split; [lia |].
  evaluate_as (next ending 0%nat one_pending) Hfirst.
  match type of Hfirst with
  | _ = Returned (Some ?ev) ?w2 =>
      evaluate_as (next ending 0%nat w2) Hstop; exists ev, w2
  end.
  match type of Hstop with _ = Returned None ?w' => exists w' end.
  split; [exact Hfirst |]. split; [exact Hstop |]. split; [reflexivity |].
  destruct (collect_contract ending 0%nat 2 one_pending ltac:(lia))
    as (Hret & Htoken & _).
  match type of Hfirst with
  | _ = Returned (Some ?ev) ?w2 =>
      assert (Hp : pulled ending 0%nat one_pending [ev] w2)
        by (econstructor; [exact Hfirst | constructor]);
      match type of Hstop with
      | _ = Returned None ?w' =>
          assert (Hcol : collect ending 0%nat 2 [] one_pending = Returned [ev] w')
            by (apply Hret; right; eexists; split; [exact Hp |];
                split; [reflexivity | exact Hstop])
      end
  end.
  split; [exact Hcol |]. split; [reflexivity |].
  apply (Htoken (ending_stop_keeps_token 0%nat) _ _ _ Hp).
  right. split; [reflexivity | exact Hstop].
Defined.

(** C6 as stated fails: with one change pending on an open stream, asking
    for two never returns (it should return the one change), and asking
    for none returns one change (it should return none). *)
Lemma collect_waits_forever :
  ~ spec_collect 2 (pending 0 one_pending) (collect env 0%nat 2 [] one_pending) /\
  ~ spec_collect 0 (pending 0 one_pending) (collect env 0%nat 0 [] one_pending).
Proof.
  split; intros (w' & H); vm_compute in H; discriminate H.
Defined.

End Runs.

(** ** Further properties of the methods, for every environment *)

(** Take apart hypotheses that compare outcomes of the same call. *)
Ltac outcomes :=
  repeat match goal with
  | H : _ \/ _ |- _ => destruct H
  | H : exists _, _ |- _ => destruct H
  | H : _ /\ _ |- _ => destruct H
  | H : Returned _ _ = Returned _ _ |- _ => injection H; intros; subst; clear H
  | H : Raised _ _ = Raised _ _ |- _ => injection H; intros; subst; clear H
  | H : Returned _ _ = Raised _ _ |- _ => discriminate H
  | H : Raised _ _ = Returned _ _ |- _ => discriminate H
  | H : Returned _ _ = Blocked |- _ => discriminate H
  | H : Raised _ _ = Blocked |- _ => discriminate H
  | H : Blocked = _ |- _ => discriminate H
  | H : ?x = _, H' : ?x = _ |- _ => rewrite H in H'
  | H : ?x = _, H' : context [match ?x with _ => _ end] |- _ => rewrite H in H'
  end.

(** Both directions of a statement about when a sequence of calls
    raises, once the outcome of the call at hand is known. *)
(** Find the way through a nested statement of the form "this call
    raised, or it returned and ...". *)
Ltac show_raise :=
  solve [ eassumption
        | reflexivity
        | split; show_raise
        | eexists; show_raise
        | left; show_raise
        | right; show_raise
        | congruence ].

Ltac raises :=
  split; intros ?; outcomes; try reflexivity; try congruence; try show_raise.

Section Further.
Context {W S T E : Type}.
Variable env : Env W S T E.

(** A buffer returned by the pre-disconnect or post-disconnect loop holds
    at most one event. *)
Lemma first_event_short cs w evs w' :
  first_event env cs w = Returned evs w' -> len evs = 0 \/ len evs = 1.
Proof.
  intros H. apply first_event_cases in H as [(c & _ & ->) | (_ & ->)]; auto.
Qed.

Lemma durability_pre_short d w pre tok w1 :
  durability_pre env d w = Returned (pre, tok) w1 -> len pre = 0 \/ len pre = 1.
Proof.
  unfold durability_pre. intros H. split_bind H.
  unfold ret in H. injection H as <- _ _.
  eapply first_event_short. eassumption.
Qed.

Lemma durability_post_short tok w post w1 :
  durability_post_events env tok w = Returned post w1 -> len post = 0 \/ len post = 1.
Proof.
  unfold durability_post_events. intros H. split_bind H.
  unfold ret in H. injection H as <- _.
  eapply first_event_short. eassumption.
Qed.

(** [test_stream_durability] raises exactly when the part before its
    [try] raises, or the [try] body raises what [except Exception] does not
    take. *)
Lemma test_stream_durability_raised d w e w' :
  test_stream_durability env d w = Raised e w' <->
  durability_pre env d w = Raised e w' \/
  exists pre tok w1,
    durability_pre env d w = Returned (pre, tok) w1 /\
    is_exception e = false /\
    durability_try env pre tok w1 = Raised e w'.
Proof.
  unfold test_stream_durability, bind.
  destruct (durability_pre env d w) as [[pre tok] w1 | e1 w1 |].
  - unfold try_except, durability_except, ret.
    destruct (durability_try env pre tok w1) as [r w2 | e2 w2 |] eqn:Htry.
    + raises.
    + destruct (is_exception e2) eqn:Hexc; raises.
    + raises.
  - raises.
  - raises.
Qed.

(** X1: whatever the count and the buffer the collection loop starts
    with, when it returns the old buffer is a prefix of the new one, the
    events added are those successive [next] calls delivered, in order,
    and there are at most [max(1, count - len(buffer))] of them. *)
Theorem collect_extends cs count events w evs w' :
  collect env cs count events w = Returned evs w' ->
  exists more,
    evs = events ++ more /\
    len more <= Z.max 1 (count - len events) /\
    (pulled env cs w more w' \/
     exists w2, pulled env cs w more w2 /\ next env cs w2 = Returned None w').
Proof.
  intros H.
  destruct (Z.lt_ge_cases (len events) count) as [Hlt | Hge].
  - apply (collect_returned env cs count (Z.to_nat (count - len events))) in H;
      [| lia | exact Hlt].
    destruct H as (more & -> & [[Hp Hn] | (w2 & Hp & Hn & Hstop)]);
      exists more; rewrite len_app in Hn;
      (split; [reflexivity |]); (split; [lia |]); eauto.
  - rewrite collect_step in H.
    destruct (next env cs w) as [[c |] w1 | e w1 |] eqn:Hnext; try discriminate.
    + assert (Hb : (len (events ++ [c]) >=? count) = true).
      { rewrite Z.geb_leb. apply Z.leb_le. rewrite len_app.
        change (len [c]) with 1. lia. }
      rewrite Hb in H. injection H as <- <-.
      exists [c]. split; [reflexivity |]. split; [change (len [c]) with 1; lia |].
      left. econstructor; [exact Hnext | constructor].
    + injection H as <- <-. exists []. rewrite app_nil_r.
      split; [reflexivity |]. split; [change (len (@nil E)) with 0; lia |].
      right. exists w. split; [constructor | exact Hnext].
Qed.

(** X2: asked for at most one event, the collection loop of
    [test_resume_token_persistence] is the [append; break] loop of
    [test_stream_durability]: it pulls one event even when it was asked
    for none. *)
Theorem collect_single cs count w :
  count <= 1 ->
  collect env cs count [] w = first_event env cs w.
Proof.
  intros Hc. rewrite collect_step. unfold first_event, bind, ret.
  destruct (next env cs w) as [[c |] w1 | e w1 |]; try reflexivity.
  assert (Hb : (len ([] ++ [c]) >=? count) = true).
  { rewrite Z.geb_leb. apply Z.leb_le. change (len ([] ++ [c])) with 1. lia. }
  rewrite Hb. reflexivity.
Qed.

(** X3: every result [test_stream_durability] returns has both counts
    in {0, 1}; [success] is true exactly when one post-disconnect event
    was counted, and a recorded error goes with [success = False] and no
    post-disconnect event. *)
Theorem durability_result_shape d w r w' :
  test_stream_durability env d w = Returned r w' ->
  (pre_disconnect_events r = 0 \/ pre_disconnect_events r = 1) /\
  (post_disconnect_events r = 0 \/ post_disconnect_events r = 1) /\
  (d_success r = true <-> post_disconnect_events r = 1) /\
  (error r <> None -> d_success r = false /\ post_disconnect_events r = 0).
Proof.
  unfold test_stream_durability. intros H. split_bind_once H.
  destruct a as [pre tok].
  pose proof (durability_pre_short _ _ _ _ _ Hm) as Hpre.
  unfold try_except, durability_try, durability_except, bind, ret in H.
  destruct (durability_post_events env tok w0) as [post w2 | e w2 |] eqn:Hpost;
    [| destruct (is_exception e) |];
    try discriminate H; injection H as <- <-; simpl.
  - pose proof (durability_post_short _ _ _ _ Hpost) as Hp.
    split; [exact Hpre |]. split; [exact Hp |]. split.
    + destruct Hp as [-> | ->]; split; intros H; try reflexivity; discriminate H.
    + intros H. contradiction H. reflexivity.
  - split; [exact Hpre |]. split; [left; reflexivity |]. split.
    + split; discriminate.
    + intros _. split; reflexivity.
Qed.

(** What raises in the [try] body: the reopening, the insert, the
    iteration or the [close]. *)
Lemma durability_post_events_raised tok w e w' :
  durability_post_events env tok w = Raised e w' <->
  watch env (Some tok) w = Raised e w' \/
  (exists s w1,
      watch env (Some tok) w = Returned s w1 /\
      (insert_one env (post_disconnect_doc (now env w1)) w1 = Raised e w' \/
       exists w2,
         insert_one env (post_disconnect_doc (now env w1)) w1 = Returned tt w2 /\
         (next env s w2 = Raised e w' \/
          exists r w3,
            next env s w2 = Returned r w3 /\ close env s w3 = Raised e w'))).
Proof.
  unfold durability_post_events, first_event, get_now, bind, ret.
  destruct (watch env (Some tok) w) as [s w1 | e1 w1 |] eqn:Hw; [| raises | raises].
  destruct (insert_one env (post_disconnect_doc (now env w1)) w1)
    as [[] w2 | e2 w2 |] eqn:Hi; [| raises | raises].
  destruct (next env s w2) as [[c |] w3 | e3 w3 |] eqn:Hn; [| | raises | raises].
  - destruct (close env s w3) as [[] w4 | e4 w4 |] eqn:Hc; raises.
  - destruct (close env s w3) as [[] w4 | e4 w4 |] eqn:Hc; raises.
Qed.

(** X4: [test_stream_durability] raises [e] exactly when one of the five
    calls before its [try] raises it (the first [watch], the pre-disconnect
    insert, the first iteration, the [close] or the [sleep]), or [e] is
    not an instance of [Exception] and one of the four calls inside the
    [try] raises it (the reopening, the post-disconnect insert, the
    iteration or the [close]: the second part says when the [try] body,
    [durability_post_events], raises).  No instance of [Exception] raised
    inside the [try] leaves the method. *)
Theorem durability_raises_iff d w e w' :
  (test_stream_durability env d w = Raised e w' <->
   watch env None w = Raised e w' \/
  (exists cs w1,
      watch env None w = Returned cs w1 /\
      (insert_one env (pre_disconnect_doc (now env w1)) w1 = Raised e w' \/
       exists w2,
         insert_one env (pre_disconnect_doc (now env w1)) w1 = Returned tt w2 /\
         (next env cs w2 = Raised e w' \/
          exists r w3,
            next env cs w2 = Returned r w3 /\
            (close env cs w3 = Raised e w' \/
             exists w4,
               close env cs w3 = Returned tt w4 /\
               (sleep env d w4 = Raised e w' \/
                exists w5,
                  sleep env d w4 = Returned tt w5 /\
                  is_exception e = false /\
                  durability_post_events env (resume_token env cs w3) w5
                  = Raised e w')))))) /\
  (forall tok u,
      durability_post_events env tok u = Raised e w' <->
      watch env (Some tok) u = Raised e w' \/
      (exists s u1,
          watch env (Some tok) u = Returned s u1 /\
          (insert_one env (post_disconnect_doc (now env u1)) u1 = Raised e w' \/
           exists u2,
             insert_one env (post_disconnect_doc (now env u1)) u1
             = Returned tt u2 /\
             (next env s u2 = Raised e w' \/
              exists r u3,
                next env s u2 = Returned r u3 /\
                close env s u3 = Raised e w')))).
Proof.
  split; [| intros tok u; apply durability_post_events_raised].
  rewrite test_stream_durability_raised.
  unfold durability_pre, durability_try, first_event, get_now,
    get_resume_token, bind, ret.
  destruct (watch env None w) as [cs w1 | e1 w1 |] eqn:Hw; [| raises | raises].
  destruct (insert_one env (pre_disconnect_doc (now env w1)) w1)
    as [[] w2 | e2 w2 |] eqn:Hi; [| raises | raises].
  destruct (next env cs w2) as [[c |] w3 | e3 w3 |] eqn:Hn; [| | raises | raises].
  - destruct (close env cs w3) as [[] w4 | e4 w4 |] eqn:Hc; [| raises | raises].
    destruct (sleep env d w4) as [[] w5 | e5 w5 |] eqn:Hs; [| raises | raises].
    destruct (durability_post_events env (resume_token env cs w3) w5)
      as [post w6 | e6 w6 |] eqn:Hp; raises.
    right; do 3 eexists.
    split; [reflexivity | split; [assumption | rewrite Hp; reflexivity]].
  - destruct (close env cs w3) as [[] w4 | e4 w4 |] eqn:Hc; [| raises | raises].
    destruct (sleep env d w4) as [[] w5 | e5 w5 |] eqn:Hs; [| raises | raises].
    destruct (durability_post_events env (resume_token env cs w3) w5)
      as [post w6 | e6 w6 |] eqn:Hp; raises.
    right; do 3 eexists.
    split; [reflexivity | split; [assumption | rewrite Hp; reflexivity]].
Qed.

(** X5: an exception [e] leaves [run_all_tests] exactly when [setup]
    raises it, or [test_resume_token_persistence] raises it, or the part
    of [test_stream_durability] before its [try] raises it, or [e] is not
    an instance of [Exception] and the [try] body of
    [test_stream_durability] raises it, each after what comes before has
    returned. *)
Theorem run_all_tests_raises_iff w e w' :
  run_all_tests env w = Raised e w' <->
  setup env w = Raised e w' \/
  (exists w1,
      setup env w = Returned tt w1 /\
      (test_resume_token_persistence env 5 w1 = Raised e w' \/
       exists r1 w2,
         test_resume_token_persistence env 5 w1 = Returned r1 w2 /\
         (durability_pre env 5 w2 = Raised e w' \/
          exists pre tok w3,
            durability_pre env 5 w2 = Returned (pre, tok) w3 /\
            is_exception e = false /\
            durability_post_events env tok w3 = Raised e w'))).
Proof.
  assert (Htry : forall pre tok u,
             durability_try env pre tok u = Raised e w' <->
             durability_post_events env tok u = Raised e w').
  { intros pre tok u. unfold durability_try, bind, ret.
    destruct (durability_post_events env tok u); raises. }
  unfold run_all_tests, default_iterations, default_disconnect_duration.
  unfold bind at 1.
  destruct (setup env w) as [[] w1 | e1 w1 |] eqn:Hs; [| raises | raises].
  unfold bind at 1.
  destruct (test_resume_token_persistence env 5 w1) as [r1 w2 | e2 w2 |] eqn:HA;
    [| raises | raises].
  unfold bind at 1, ret.
  assert (HB : test_stream_durability env 5 w2 = Raised e w' <->
               durability_pre env 5 w2 = Raised e w' \/
               exists pre tok w3,
                 durability_pre env 5 w2 = Returned (pre, tok) w3 /\
                 is_exception e = false /\
                 durability_post_events env tok w3 = Raised e w').
  { rewrite test_stream_durability_raised. split.
    - intros [H | (pre & tok & w3 & Hp & Hx & Ht)]; [left; exact H |].
      right. exists pre, tok, w3. apply Htry in Ht. auto.
    - intros [H | (pre & tok & w3 & Hp & Hx & Ht)]; [left; exact H |].
      right. exists pre, tok, w3. apply (Htry pre) in Ht. auto. }
  destruct (test_stream_durability env 5 w2) as [r2 w3 | e3 w3 |] eqn:HD.
  - split; [discriminate |]. intros H.
    assert (X : Returned r2 w3 = Raised e w') by (apply HB; outcomes; show_raise).
    discriminate X.
  - split.
    + intros H. right. exists w1. split; [reflexivity |]. right.
      exists r1, w2. split; [exact HA |]. apply HB.
      injection H as <- <-. reflexivity.
    + intros H.
      assert (X : Raised e3 w3 = Raised e w' :> outcome W durability_result)
        by (apply HB; outcomes; show_raise).
      injection X as <- <-. reflexivity.
  - split; [discriminate |]. intros H.
    assert (X : Blocked = Raised e w' :> outcome W durability_result)
      by (apply HB; outcomes; show_raise).
    discriminate X.
Qed.

(** X6: called with [iterations <= 0], [test_resume_token_persistence]
    inserts nothing before it iterates the stream, so if the stream it has
    just opened has nothing to deliver the method never returns. *)
Theorem resume_test_waits iterations w cs w1 :
  iterations <= 0 ->
  watch env None w = Returned cs w1 ->
  next env cs w1 = Blocked ->
  test_resume_token_persistence env iterations w = Blocked.
Proof.
  intros Hit Hw Hn.
  assert (Hrange : range iterations = []).
  { unfold range. replace (Z.to_nat iterations) with 0%nat by lia. reflexivity. }
  unfold test_resume_token_persistence, resume_token_events.
  unfold bind at 1. rewrite (bind_step _ _ _ _ _ Hw).
  rewrite Hrange. simpl for_each.
  rewrite (bind_step (ret tt) _ w1 tt w1 eq_refl).
  unfold bind at 1. rewrite collect_step, Hn. reflexivity.
Qed.

(** X13: whatever [iterations] is, also zero or negative, each buffer of a
    returned [test_resume_token_persistence] holds at most
    [max(1, iterations)] events and [success] says whether the second one
    holds exactly [iterations]; so for [iterations <= 0] at most one event
    is collected per loop, and [success] can only be true for
    [iterations = 0] with an empty second buffer. *)
Theorem resume_counts_any_iterations iterations w r w' :
  test_resume_token_persistence env iterations w = Returned r w' ->
  0 <= initial_events r <= Z.max 1 iterations /\
  0 <= resumed_events r <= Z.max 1 iterations /\
  (success r = true <-> resumed_events r = iterations) /\
  (iterations <= 0 -> success r = true -> iterations = 0 /\ resumed_events r = 0).
Proof.
  intros H.
  apply test_resume_token_persistence_returned in H
    as (events & new_events & Hev & ->).
  apply resume_token_events_loops in Hev
    as (cs & w1 & w2 & cs' & w3 & w4 & HA & HB).
  assert (Hbound : forall c u evs u',
             collect env c iterations [] u = Returned evs u' ->
             0 <= len evs <= Z.max 1 iterations).
  { intros c u evs u' Hcol. split; [apply len_nonneg |].
    destruct (Z.lt_ge_cases iterations 1) as [Hsmall | Hbig].
    - rewrite collect_step in Hcol.
      destruct (next env c u) as [[x |] u1 | e u1 |]; try discriminate Hcol.
      + assert (Hb : (len ([] ++ [x]) >=? iterations) = true).
        { rewrite Z.geb_leb. apply Z.leb_le. change (len ([] ++ [x])) with 1. lia. }
        rewrite Hb in Hcol. injection Hcol as <- _.
        unfold len. simpl. lia.
      + injection Hcol as <- _. unfold len. simpl. lia.
    - pose proof (collect_length env c iterations u evs u' Hbig Hcol). lia. }
  pose proof (Hbound _ _ _ _ HA) as HlenA.
  pose proof (Hbound _ _ _ _ HB) as HlenB.
  simpl. split; [exact HlenA |]. split; [exact HlenB |].
  split; [apply Z.eqb_eq |].
  intros Hle Hs. apply Z.eqb_eq in Hs. lia.
Qed.

End Further.

(** ** What the scenarios can change

    The two scenario methods act on the environment through [watch],
    [insert_one], the iteration of a stream, [close] and [sleep] only:
    whatever these five respect, the methods respect. *)

Section Frame.
Context {W S T E : Type}.
Variable env : Env W S T E.
Variable R : W -> W -> Prop.
Hypothesis R_refl : forall u, R u u.
Hypothesis R_trans : forall u v x, R u v -> R v x -> R u x.
Hypothesis R_watch : forall o, respects R (watch env o).
Hypothesis R_insert_one : forall d, respects R (insert_one env d).
Hypothesis R_next : forall cs, respects R (next env cs).
Hypothesis R_close : forall cs, respects R (close env cs).
Hypothesis R_sleep : forall d, respects R (sleep env d).

Lemma respects_ret {A : Type} (a : A) : respects R (@ret W A a).
Proof.
  intros w w' [(b & H) | (e & H)]; [| discriminate H].
  injection H as _ <-. apply R_refl.
Qed.

Lemma respects_bind {A B : Type} (m : M W A) (k : A -> M W B) :
  respects R m -> (forall a, respects R (k a)) -> respects R (bind m k).
Proof.
  intros Hm Hk w w' Hends. unfold ends, bind in Hends.
  destruct (m w) as [a w1 | e w1 |] eqn:Hmw.
  - apply (R_trans w w1 w').
    + apply Hm. left. exists a. exact Hmw.
    + apply (Hk a). exact Hends.
  - apply Hm. right. exists e. rewrite Hmw.
    destruct Hends as [(b & H) | (e' & H)]; [discriminate H |].
    injection H as _ <-. reflexivity.
  - destruct Hends as [(b & H) | (e' & H)]; discriminate H.
Qed.

Lemma respects_for_each {A : Type} (xs : list A) (body : A -> M W unit) :
  (forall x, respects R (body x)) -> respects R (for_each xs body).
Proof.
  intros Hbody. induction xs as [| x xs IH]; simpl.
  - apply respects_ret.
  - apply respects_bind; [apply Hbody | intros _; exact IH].
Qed.

Lemma respects_try_except {A : Type} (m : M W A) (h : exn -> M W A) :
  respects R m -> (forall e, respects R (h e)) -> respects R (try_except m h).
Proof.
  intros Hm Hh w w' Hends. unfold ends, try_except in Hends.
  destruct (m w) as [a w1 | e w1 |] eqn:Hmw.
  - apply Hm. left. exists a. rewrite Hmw.
    destruct Hends as [(b & H) | (e' & H)]; [| discriminate H].
    injection H as _ <-. reflexivity.
  - assert (Hr : R w w1) by (apply Hm; right; exists e; exact Hmw).
    destruct (is_exception e).
    + apply (R_trans w w1 w'); [exact Hr |]. apply (Hh e). exact Hends.
    + destruct Hends as [(b & H) | (e' & H)]; [discriminate H |].
      injection H as _ <-. exact Hr.
  - destruct Hends as [(b & H) | (e' & H)]; discriminate H.
Qed.

Lemma respects_get_now : respects R (get_now env).
Proof.
  intros w w' [(b & H) | (e & H)]; [| discriminate H].
  injection H as _ <-. apply R_refl.
Qed.

Lemma respects_get_resume_token cs : respects R (get_resume_token env cs).
Proof.
  intros w w' [(b & H) | (e & H)]; [| discriminate H].
  injection H as _ <-. apply R_refl.
Qed.

Lemma respects_first_event cs : respects R (first_event env cs).
Proof.
  unfold first_event. apply respects_bind; [apply R_next |].
  intros [c |]; apply respects_ret.
Qed.

(** The collection loop, by induction on the number of events still
    missing. *)
Lemma respects_collect cs iterations (k : nat) :
  forall events,
    (Z.to_nat (iterations - len events) <= k)%nat ->
    respects R (collect env cs iterations events).
Proof.
  induction k as [| k IH]; intros events Hk w w' Hends;
    unfold ends in Hends; rewrite collect_step in Hends;
    destruct (next env cs w) as [[c |] w1 | e w1 |] eqn:Hnext.
  - assert (Hb : (len (events ++ [c]) >=? iterations) = true).
    { rewrite Z.geb_leb. apply Z.leb_le. rewrite len_app.
      change (len [c]) with 1. lia. }
    rewrite Hb in Hends.
    apply (R_next cs). left. exists (Some c). rewrite Hnext.
    destruct Hends as [(b & H) | (e' & H)]; [| discriminate H].
    injection H as _ <-. reflexivity.
  - apply (R_next cs). left. exists None. rewrite Hnext.
    destruct Hends as [(b & H) | (e' & H)]; [| discriminate H].
    injection H as _ <-. reflexivity.
  - apply (R_next cs). right. exists e. rewrite Hnext.
    destruct Hends as [(b & H) | (e' & H)]; [discriminate H |].
    injection H as _ <-. reflexivity.
  - destruct Hends as [(b & H) | (e' & H)]; discriminate H.
  - assert (Hr : R w w1) by (apply (R_next cs); left; exists (Some c); exact Hnext).
    destruct (len (events ++ [c]) >=? iterations) eqn:Hb.
    + destruct Hends as [(b & H) | (e' & H)]; [| discriminate H].
      injection H as _ <-. exact Hr.
    + apply (R_trans w w1 w'); [exact Hr |].
      apply (IH (events ++ [c])); [| exact Hends].
      rewrite Z.geb_leb in Hb. apply Z.leb_gt in Hb.
      rewrite len_app in *. change (len [c]) with 1 in *. lia.
  - apply (R_next cs). left. exists None. rewrite Hnext.
    destruct Hends as [(b & H) | (e' & H)]; [| discriminate H].
    injection H as _ <-. reflexivity.
  - apply (R_next cs). right. exists e. rewrite Hnext.
    destruct Hends as [(b & H) | (e' & H)]; [discriminate H |].
    injection H as _ <-. reflexivity.
  - destruct Hends as [(b & H) | (e' & H)]; discriminate H.
Qed.

Lemma respects_inserts (mk : Z -> Z -> doc) xs :
  respects R (for_each xs (fun i => t <- get_now env ;; insert_one env (mk i t))).
Proof.
  apply respects_for_each. intros x.
  apply respects_bind; [apply respects_get_now | intros t; apply R_insert_one].
Qed.

Lemma respects_resume_token_events iterations :
  respects R (resume_token_events env iterations).
Proof.
  unfold resume_token_events.
  apply respects_bind; [apply R_watch | intros cs].
  apply respects_bind; [apply respects_inserts | intros _].
  apply respects_bind;
    [apply (respects_collect cs iterations (Z.to_nat (iterations - len (@nil E))));
     lia | intros events].
  apply respects_bind; [apply respects_get_resume_token | intros tok].
  apply respects_bind; [apply R_close | intros _].
  apply respects_bind; [apply R_watch | intros cs'].
  apply respects_bind; [apply respects_inserts | intros _].
  apply respects_bind;
    [apply (respects_collect cs' iterations (Z.to_nat (iterations - len (@nil E))));
     lia | intros new_events].
  apply respects_bind; [apply R_close | intros _].
  apply respects_ret.
Qed.

Lemma respects_test_resume_token_persistence iterations :
  respects R (test_resume_token_persistence env iterations).
Proof.
  unfold test_resume_token_persistence.
  apply respects_bind; [apply respects_resume_token_events |].
  intros [events new_events]. apply respects_ret.
Qed.

Lemma respects_durability_post_events tok :
  respects R (durability_post_events env tok).
Proof.
  unfold durability_post_events.
  apply respects_bind; [apply R_watch | intros cs].
  apply respects_bind; [apply respects_get_now | intros t].
  apply respects_bind; [apply R_insert_one | intros _].
  apply respects_bind; [apply respects_first_event | intros post].
  apply respects_bind; [apply R_close | intros _].
  apply respects_ret.
Qed.

Lemma respects_test_stream_durability d :
  respects R (test_stream_durability env d).
Proof.
  unfold test_stream_durability.
  apply respects_bind.
  - unfold durability_pre.
    apply respects_bind; [apply R_watch | intros cs].
    apply respects_bind; [apply respects_get_now | intros t].
    apply respects_bind; [apply R_insert_one | intros _].
    apply respects_bind; [apply respects_first_event | intros pre].
    apply respects_bind; [apply respects_get_resume_token | intros tok].
    apply respects_bind; [apply R_close | intros _].
    apply respects_bind; [apply R_sleep | intros _].
    apply respects_ret.
  - intros [pre tok]. apply respects_try_except.
    + unfold durability_try.
      apply respects_bind; [apply respects_durability_post_events |].
      intros post. apply respects_ret.
    + intros e. unfold durability_except. apply respects_ret.
Qed.

End Frame.

(** ** The log-based collection when the server answers at once *)

Module Deployment.
Import LogSource Scenarios LogSourceFacts.

Lemma request_responsive w : responsive w -> request w = Returned tt w.
Proof.
  intros (Hu & Hl). destruct w. simpl in Hu, Hl. subst.
  unfold request, set_clock. simpl. rewrite Z.add_0_r. reflexivity.
Qed.

Lemma only_streams_refl w : only_streams w w.
Proof. destruct w. reflexivity. Qed.

Lemma only_streams_trans w w1 w2 :
  only_streams w w1 -> only_streams w1 w2 -> only_streams w w2.
Proof. unfold only_streams. intros H1 H2. rewrite H2, H1. reflexivity. Qed.

Lemma only_streams_responsive w w1 :
  only_streams w w1 -> responsive w -> responsive w1.
Proof. intros H. rewrite H. exact (fun x => x). Qed.

Lemma only_data_refl w : only_data w w.
Proof. destruct w. reflexivity. Qed.

Lemma only_data_trans w w1 w2 : only_data w w1 -> only_data w1 w2 -> only_data w w2.
Proof. unfold only_data. intros H1 H2. rewrite H2, H1. reflexivity. Qed.

Lemma only_data_responsive w w1 : only_data w w1 -> responsive w -> responsive w1.
Proof. intros H. rewrite H. exact (fun x => x). Qed.

(** *** What each call leaves behind *)

Lemma watch_only_streams o w h w1 :
  responsive w -> ls_watch o w = Returned h w1 -> only_streams w w1.
Proof.
  intros Hr. unfold ls_watch, bind, open_cursor.
  rewrite (request_responsive w Hr).
  destruct o as [t |]; [destruct (_ || _); [discriminate |] |];
    intros H; injection H as _ <-; reflexivity.
Qed.

Lemma next_only_streams h w r w1 :
  responsive w -> ls_next h w = Returned r w1 -> only_streams w w1.
Proof.
  intros Hr. unfold ls_next, bind.
  destruct (nth_error (cursors w) h) as [c |]; [| discriminate].
  destruct (alive c).
  - rewrite (request_responsive w Hr).
    destruct (nth_error (oplog w) (cur_pos c)); [| discriminate].
    intros H. injection H as _ <-. reflexivity.
  - intros H. injection H as _ <-. apply only_streams_refl.
Qed.

Lemma close_only_streams h w w1 :
  ls_close h w = Returned tt w1 -> only_streams w w1.
Proof.
  unfold ls_close. destruct (nth_error (cursors w) h);
    intros H; injection H as <-; [reflexivity | apply only_streams_refl].
Qed.

Lemma pulled_only_streams h w evs w' :
  pulled env h w evs w' -> responsive w -> only_streams w w'.
Proof.
  induction 1 as [w | w c w1 evs w2 Hnext _ IH]; intros Hr.
  - apply only_streams_refl.
  - simpl in Hnext. pose proof (next_only_streams _ _ _ _ Hr Hnext) as H1.
    eapply only_streams_trans; [exact H1 |].
    apply IH. eapply only_streams_responsive; eassumption.
Qed.

Lemma collect_only_streams h K w evs w' :
  1 <= K -> responsive w ->
  collect env h K [] w = Returned evs w' -> only_streams w w'.
Proof.
  intros HK Hr Hcol.
  apply (collect_returned env h K (Z.to_nat K) [] w evs w') in Hcol;
    [| change (len (@nil change)) with 0; lia
     | change (len (@nil change)) with 0; lia].
  destruct Hcol as (more & _ & [[Hp _] | (w2 & Hp & _ & Hstop)]).
  - exact (pulled_only_streams _ _ _ _ Hp Hr).
  - pose proof (pulled_only_streams _ _ _ _ Hp Hr) as H1.
    eapply only_streams_trans; [exact H1 |].
    simpl in Hstop. eapply next_only_streams; [| exact Hstop].
    eapply only_streams_responsive; eassumption.
Qed.

(** An insert appends our document, stamped with the current time, and
    then at most one document of another client. *)
Lemma insert_one_entry d w w1 :
  responsive w ->
  ls_insert_one d w = Returned tt w1 ->
  only_data w w1 /\
  exists ext,
    oplog w1 = oplog w ++ mk_change (List.length (oplog w)) d (clock w) :: ext /\
    (forall e, In e ext -> cluster_time e = clock w) /\
    (others w = [] ->
     ext = [] /\ documents w1 = documents w ++ [d] /\ others w1 = []).
Proof.
  intros Hr. unfold ls_insert_one, bind.
  rewrite (request_responsive w Hr).
  destruct (others (commit d w)) as [| f rest] eqn:Ho;
    intros H; injection H as <-.
  - split; [reflexivity |]. exists []. split; [reflexivity |].
    split; [intros e [] |]. intros _. auto.
  - split; [reflexivity |]. eexists. split.
    + simpl. rewrite <- app_assoc. reflexivity.
    + split.
      * intros e [<- | []]. reflexivity.
      * intros Hnone. simpl in Ho. congruence.
Qed.

Lemma insert_one_responsive d w :
  responsive w -> exists w1, ls_insert_one d w = Returned tt w1.
Proof.
  intros Hr. unfold ls_insert_one, bind. rewrite (request_responsive w Hr).
  destruct (others (commit d w)); eauto.
Qed.

Lemma only_data_clock w w1 : only_data w w1 -> clock w1 = clock w.
Proof. intros H. rewrite H. reflexivity. Qed.

Lemma only_data_cursors w w1 : only_data w w1 -> cursors w1 = cursors w.
Proof. intros H. rewrite H. reflexivity. Qed.

Lemma only_data_window w w1 : only_data w w1 -> window w1 = window w.
Proof. intros H. rewrite H. reflexivity. Qed.

Lemma only_streams_clock w w1 : only_streams w w1 -> clock w1 = clock w.
Proof. intros H. rewrite H. reflexivity. Qed.

Lemma only_streams_oplog w w1 : only_streams w w1 -> oplog w1 = oplog w.
Proof. intros H. rewrite H. reflexivity. Qed.

Lemma only_streams_window w w1 : only_streams w w1 -> window w1 = window w.
Proof. intros H. rewrite H. reflexivity. Qed.

Lemma only_streams_others w w1 : only_streams w w1 -> others w1 = others w.
Proof. intros H. rewrite H. reflexivity. Qed.

Lemma only_streams_documents w w1 : only_streams w w1 -> documents w1 = documents w.
Proof. intros H. rewrite H. reflexivity. Qed.

(** A run of inserts appends at least one entry per document, all stamped
    with the current time; when no other client writes, exactly ours. *)
Lemma inserts_entries (mk : Z -> Z -> doc) (xs : list Z) :
  forall w w1,
    responsive w ->
    for_each xs (fun i => t <- get_now env ;; insert_one env (mk i t)) w
      = Returned tt w1 ->
    only_data w w1 /\
    (exists ext,
        oplog w1 = oplog w ++ ext /\
        (List.length xs <= List.length ext)%nat /\
        (forall e, In e ext -> cluster_time e = clock w)) /\
    (others w = [] ->
     oplog w1 = oplog w ++ appended mk (List.length (oplog w)) (clock w) xs /\
     documents w1 = documents w ++ map (fun i => mk i (clock w)) xs /\
     others w1 = []).
Proof.
  induction xs as [| x xs IH]; intros w w1 Hr H.
  - unfold for_each, ret in H. injection H as <-.
    split; [apply only_data_refl |]. split.
    + exists []. rewrite app_nil_r. split; [reflexivity |].
      split; [simpl; lia | intros e []].
    + intros Hnone. simpl. rewrite !app_nil_r. auto.
  - change (for_each (x :: xs) ?body w)
      with (bind (body x) (fun _ => for_each xs body) w) in H.
    split_bind_once H. split_bind_once Hm.
    unfold get_now in Hm0. injection Hm0 as <- <-. destruct a.
    change (insert_one env (mk x (now env w)) w)
      with (ls_insert_one (mk x (clock w)) w) in Hm.
    destruct (insert_one_entry _ _ _ Hr Hm) as (Hd & ext & Hl & Ht & Hcalm).
    pose proof (only_data_responsive _ _ Hd Hr) as Hr0.
    destruct (IH _ _ Hr0 H) as (Hd' & (ext' & Hl' & Hlen' & Ht') & Hcalm').
    pose proof (only_data_clock _ _ Hd) as Hclock.
    split; [eapply only_data_trans; eassumption |]. split.
    + exists ((mk_change (List.length (oplog w)) (mk x (clock w)) (clock w) :: ext) ++ ext').
      split; [rewrite Hl', Hl, <- app_assoc; reflexivity |]. split.
      * rewrite length_app. simpl. lia.
      * intros e He. apply in_app_or in He as [[<- | He] | He]; auto.
        rewrite <- Hclock. auto.
    + intros Hnone. destruct (Hcalm Hnone) as (-> & Hdocs & Hnone0).
      destruct (Hcalm' Hnone0) as (Hl2 & Hdocs2 & Hnone2).
      split; [| split; [| exact Hnone2]].
      * rewrite Hl2, Hl, Hclock, <- app_assoc. simpl.
        rewrite length_app. simpl.
        replace (List.length (oplog w) + 1)%nat
          with (Datatypes.S (List.length (oplog w))) by lia.
        reflexivity.
      * rewrite Hdocs2, Hdocs, Hclock, <- app_assoc. reflexivity.
Qed.

Lemma inserts_responsive (mk : Z -> Z -> doc) (xs : list Z) :
  forall w,
    responsive w ->
    exists w1,
      for_each xs (fun i => t <- get_now env ;; insert_one env (mk i t)) w
      = Returned tt w1.
Proof.
  induction xs as [| x xs IH]; intros w Hr.
  - exists w. reflexivity.
  - destruct (insert_one_responsive (mk x (clock w)) w Hr) as (w1 & Hi).
    destruct (insert_one_entry _ _ _ Hr Hi) as (Hd & _).
    destruct (IH w1 (only_data_responsive _ _ Hd Hr)) as (w2 & Hrest).
    exists w2.
    change (for_each (x :: xs) ?body w)
      with (bind (body x) (fun _ => for_each xs body) w).
    erewrite bind_step; [exact Hrest |].
    erewrite bind_step; [exact Hi | reflexivity].
Qed.

(** *** Streams *)

Lemma next_responsive h w p t ev :
  responsive w ->
  nth_error (cursors w) h = Some (mk_cursor p t true) ->
  nth_error (oplog w) p = Some ev ->
  exists w1,
    next env h w = Returned (Some ev) w1 /\
    nth_error (cursors w1) h
    = Some (mk_cursor (Datatypes.S p) (cluster_time ev) true).
Proof.
  intros Hr Hcur Hev. simpl. unfold ls_next, bind. rewrite Hcur. simpl.
  rewrite (request_responsive w Hr), Hev. eexists. split; [reflexivity |].
  simpl. eapply nth_error_update. exact Hcur.
Qed.

(** The time a stream carries after delivering events stamped [tau]. *)
Lemma pulled_time h w evs w' :
  pulled env h w evs w' ->
  forall p t tau,
    nth_error (cursors w) h = Some (mk_cursor p t true) ->
    (forall e, In e evs -> cluster_time e = tau) ->
    evs <> [] ->
    nth_error (cursors w') h = Some (mk_cursor (p + List.length evs) tau true).
Proof.
  induction 1 as [w | w c w1 evs w2 Hnext Hp IH]; intros p t tau Hcur Htau Hne.
  - contradiction Hne. reflexivity.
  - simpl in Hnext.
    destruct (next_alive _ _ _ _ _ _ Hcur Hnext) as (c0 & Hc0 & _ & _ & Hcs).
    injection Hc0 as <-.
    assert (Hcur1 : nth_error (cursors w1) h
                    = Some (mk_cursor (Datatypes.S p) (cluster_time c) true)).
    { rewrite Hcs. eapply nth_error_update. exact Hcur. }
    destruct evs as [| c' evs].
    + apply pulled_nil_inv in Hp. subst w2. rewrite Hcur1.
      rewrite (Htau c (or_introl eq_refl)). simpl. do 3 f_equal. lia.
    + rewrite (IH _ _ tau Hcur1); [| intros e He; apply Htau; right; exact He
                                    | discriminate].
      simpl. do 3 f_equal. lia.
Qed.

Lemma collect_responsive h K (m : nat) :
  forall events w p t,
    responsive w ->
    nth_error (cursors w) h = Some (mk_cursor p t true) ->
    len events + Z.of_nat (Datatypes.S m) = K ->
    (p + Datatypes.S m <= List.length (oplog w))%nat ->
    exists evs w', collect env h K events w = Returned evs w'.
Proof.
  induction m as [| m IH]; intros events w p t Hr Hcur HK Hlen.
  - destruct (nth_error (oplog w) p) as [ev |] eqn:Hev;
      [| apply nth_error_None in Hev; lia].
    destruct (next_responsive _ _ _ _ _ Hr Hcur Hev) as (w1 & Hn & _).
    rewrite collect_step, Hn.
    assert (Hb : (len (events ++ [ev]) >=? K) = true).
    { rewrite Z.geb_leb. apply Z.leb_le. rewrite len_app.
      change (len [ev]) with 1. lia. }
    rewrite Hb. eauto.
  - destruct (nth_error (oplog w) p) as [ev |] eqn:Hev;
      [| apply nth_error_None in Hev; lia].
    destruct (next_responsive _ _ _ _ _ Hr Hcur Hev) as (w1 & Hn & Hc1).
    pose proof Hn as Hf. simpl in Hf. apply next_only_streams in Hf; [| exact Hr].
    rewrite collect_step, Hn.
    assert (Hb : (len (events ++ [ev]) >=? K) = false).
    { rewrite Z.geb_leb. apply Z.leb_gt. rewrite len_app.
      change (len [ev]) with 1. lia. }
    rewrite Hb. eapply IH.
    + eapply only_streams_responsive; eassumption.
    + exact Hc1.
    + rewrite len_app. change (len [ev]) with 1. lia.
    + rewrite (only_streams_oplog _ _ Hf). lia.
Qed.

(** What a returned collection of [K >= 1] events has done to a live
    stream standing at [p]: it took the [K] entries from [p] on, and the
    stream now stands behind them. *)
Lemma collect_taken h K w evs w' p t :
  1 <= K ->
  responsive w ->
  nth_error (cursors w) h = Some (mk_cursor p t true) ->
  collect env h K [] w = Returned evs w' ->
  only_streams w w' /\
  List.length evs = Z.to_nat K /\
  List.length (cursors w') = List.length (cursors w) /\
  (forall i, (i < Z.to_nat K)%nat -> nth_error evs i = nth_error (oplog w) (p + i)) /\
  (forall tau,
      (forall e, In e evs -> cluster_time e = tau) ->
      nth_error (cursors w') h = Some (mk_cursor (p + Z.to_nat K) tau true)).
Proof.
  intros HK Hr Hcur Hcol.
  pose proof (collect_only_streams _ _ _ _ _ HK Hr Hcol) as Hs.
  destruct (collect_log _ _ _ _ _ _ _ HK Hcur Hcol) as (Hlen & _ & Hn & _ & Hnth).
  split; [exact Hs |]. split; [exact Hlen |]. split; [exact Hn |].
  split; [intros i Hi; apply Hnth; lia |].
  intros tau Htau.
  apply (collect_returned env h K (Z.to_nat K) [] w evs w') in Hcol;
    [| change (len (@nil change)) with 0; lia
     | change (len (@nil change)) with 0; lia].
  destruct Hcol as (more & Heq & [[Hp _] | (w2 & Hp & Hlt & _)]);
    simpl in Heq; subst more.
  - rewrite <- Hlen. eapply pulled_time; [exact Hp | exact Hcur | exact Htau |].
    intros ->. simpl in Hlen. lia.
  - unfold len in Hlt. lia.
Qed.

Lemma close_cursor h w c w1 :
  nth_error (cursors w) h = Some c ->
  ls_close h w = Returned tt w1 ->
  nth_error (cursors w1) h = Some (mk_cursor (cur_pos c) (cur_time c) false) /\
  List.length (cursors w1) = List.length (cursors w).
Proof.
  intros Hc. unfold ls_close. rewrite Hc. intros H. injection H as <-. simpl.
  split; [eapply nth_error_update; exact Hc | apply length_update].
Qed.

Lemma close_returns h w : exists w1, ls_close h w = Returned tt w1.
Proof. unfold ls_close. destruct (nth_error (cursors w) h); eauto. Qed.

Lemma watch_now_responsive w :
  responsive w ->
  ls_watch None w =
  Returned (List.length (cursors w))
    (set_cursors w (cursors w ++ [mk_cursor (List.length (oplog w)) (clock w) true])).
Proof.
  intros Hr. unfold ls_watch, bind, open_cursor.
  rewrite (request_responsive w Hr). reflexivity.
Qed.

Lemma watch_resume_responsive tok w :
  responsive w ->
  (tok_pos tok <= List.length (oplog w))%nat ->
  ls_watch (Some tok) w =
  if clock w - tok_time tok >? window w
  then Raised ResumeError w
  else Returned (List.length (cursors w))
         (set_cursors w (cursors w ++ [mk_cursor (tok_pos tok) (tok_time tok) true])).
Proof.
  intros Hr Hpos. unfold ls_watch, bind, open_cursor.
  rewrite (request_responsive w Hr).
  assert (Hin : (List.length (oplog w) <? tok_pos tok)%nat = false)
    by (apply Nat.ltb_ge; exact Hpos).
  rewrite Hin, orb_false_r. reflexivity.
Qed.

Lemma nth_error_last {A : Type} (l : list A) a :
  nth_error (l ++ [a]) (List.length l) = Some a.
Proof. rewrite nth_error_app2 by lia. rewrite Nat.sub_diag. reflexivity. Qed.

Lemma length_appended mk base t xs :
  List.length (appended mk base t xs) = List.length xs.
Proof.
  revert base. induction xs as [| x xs IH]; intros base; simpl; auto.
Qed.

Lemma length_range K : List.length (range K) = Z.to_nat K.
Proof. unfold range. rewrite length_map, length_seq. reflexivity. Qed.

(** Events taken from the part of the log written after position [p0]
    carry the stamp of that part. *)
Lemma taken_stamp (l ext : list change) (evs : list change) p0 n tau :
  List.length l = p0 ->
  List.length evs = n ->
  (forall i, (i < n)%nat -> nth_error evs i = nth_error (l ++ ext) (p0 + i)) ->
  (forall e, In e ext -> cluster_time e = tau) ->
  forall e, In e evs -> cluster_time e = tau.
Proof.
  intros Hl Hn Hnth Htau e He.
  apply In_nth_error in He as (i & Hi).
  assert (Hlt : (i < n)%nat).
  { rewrite <- Hn. apply nth_error_Some. congruence. }
  rewrite (Hnth i Hlt), nth_error_app2 in Hi by lia.
  apply Htau. eapply nth_error_In. exact Hi.
Qed.

(** *** Scenario A *)

(** What a returned run of scenario A has done, when the server answers
    at once. *)
Lemma scenario_A_shape K w evA evB w' :
  1 <= K ->
  responsive w ->
  resume_token_events env K w = Returned (evA, evB) w' ->
  responsive w' /\ window w' = window w /\ clock w' = clock w /\
  List.length evA = Z.to_nat K /\ List.length evB = Z.to_nat K /\
  (forall i, (i < Z.to_nat K)%nat ->
             nth_error evA i = nth_error (oplog w') (List.length (oplog w) + i)) /\
  (forall i, (i < Z.to_nat K)%nat ->
             nth_error evB i
             = nth_error (oplog w') (List.length (oplog w) + Z.to_nat K + i)) /\
  (others w = [] ->
   oplog w' = oplog w
              ++ appended initial_doc (List.length (oplog w)) (clock w) (range K)
              ++ appended resumed_doc (List.length (oplog w) + Z.to_nat K)
                   (clock w) (range K) /\
   documents w' = documents w
                  ++ map (fun i => initial_doc i (clock w)) (range K)
                  ++ map (fun i => resumed_doc i (clock w)) (range K) /\
   others w' = []).
Proof.
  intros HK Hr H.
  apply resume_token_events_steps in H
    as (cs & w1 & w2 & w3 & w4 & cs' & w5 & w6 & w7 &
        Hw & Hins & Hcol & Hclose & Hres & Hins' & Hcol' & Hclose').
  simpl in Hw, Hclose, Hres, Hclose'.
  set (p0 := List.length (oplog w)) in *.
  set (k := Z.to_nat K) in *.
  (* the first stream *)
  rewrite (watch_now_responsive w Hr) in Hw. injection Hw as <- <-.
  set (w1 := set_cursors w
               (cursors w ++ [mk_cursor p0 (clock w) true])) in *.
  assert (Hr1 : responsive w1) by exact Hr.
  destruct (inserts_entries _ _ _ _ Hr1 Hins)
    as (Hd2 & (ext & Hl2 & Hlen2 & Ht2) & Hcalm2).
  pose proof (only_data_responsive _ _ Hd2 Hr1) as Hr2.
  assert (Hcur2 : nth_error (cursors w2) (List.length (cursors w))
                  = Some (mk_cursor p0 (clock w) true)).
  { rewrite (only_data_cursors _ _ Hd2). apply nth_error_last. }
  destruct (collect_taken _ _ _ _ _ _ _ HK Hr2 Hcur2 Hcol)
    as (Hs3 & HlenA & Hn3 & HnthA & _).
  pose proof (only_streams_responsive _ _ Hs3 Hr2) as Hr3.
  destruct (collect_log _ _ _ _ _ _ _ HK Hcur2 Hcol)
    as (_ & _ & _ & (t3 & Hcur3) & _).
  pose proof (close_only_streams _ _ _ Hclose) as Hs4.
  pose proof (only_streams_responsive _ _ Hs4 Hr3) as Hr4.
  (* the second stream *)
  unfold ls_resume_token in Hres. rewrite Hcur3 in Hres.
  pose proof (watch_only_streams _ _ _ _ Hr4 Hres) as Hs5.
  pose proof (only_streams_responsive _ _ Hs5 Hr4) as Hr5.
  apply watch_resume_returned in Hres as (_ & Hcs' & Hc5). simpl in Hc5.
  destruct (inserts_entries _ _ _ _ Hr5 Hins')
    as (Hd6 & (ext' & Hl6 & Hlen6 & Ht6) & Hcalm6).
  pose proof (only_data_responsive _ _ Hd6 Hr5) as Hr6.
  assert (Hcur6 : nth_error (cursors w6) cs'
                  = Some (mk_cursor (p0 + List.length evA) t3 true)).
  { rewrite (only_data_cursors _ _ Hd6), Hc5, Hcs'. apply nth_error_last. }
  destruct (collect_taken _ _ _ _ _ _ _ HK Hr6 Hcur6 Hcol')
    as (Hs7 & HlenB & _ & HnthB & _).
  pose proof (only_streams_responsive _ _ Hs7 Hr6) as Hr7.
  pose proof (close_only_streams _ _ _ Hclose') as Hs8.
  (* the log *)
  assert (Hlog5 : oplog w5 = oplog w2).
  { rewrite (only_streams_oplog _ _ Hs5), (only_streams_oplog _ _ Hs4).
    apply (only_streams_oplog _ _ Hs3). }
  assert (Hlog' : oplog w' = oplog w6).
  { rewrite (only_streams_oplog _ _ Hs8). apply (only_streams_oplog _ _ Hs7). }
  assert (Hclock5 : clock w5 = clock w).
  { rewrite (only_streams_clock _ _ Hs5), (only_streams_clock _ _ Hs4),
      (only_streams_clock _ _ Hs3). apply (only_data_clock _ _ Hd2). }
  split; [exact (only_streams_responsive _ _ Hs8 Hr7) |].
  split.
  { rewrite (only_streams_window _ _ Hs8), (only_streams_window _ _ Hs7),
      (only_data_window _ _ Hd6), (only_streams_window _ _ Hs5),
      (only_streams_window _ _ Hs4), (only_streams_window _ _ Hs3).
    apply (only_data_window _ _ Hd2). }
  split.
  { rewrite (only_streams_clock _ _ Hs8), (only_streams_clock _ _ Hs7),
      (only_data_clock _ _ Hd6). exact Hclock5. }
  split; [exact HlenA |]. split; [exact HlenB |].
  split.
  { intros i Hi. rewrite (HnthA i Hi), Hlog', Hl6, Hlog5.
    destruct (nth_error (oplog w2) (p0 + i)) as [e |] eqn:He.
    - symmetry. apply nth_error_app_some. exact He.
    - apply nth_error_None in He. rewrite Hl2, length_app in He.
      change (List.length (oplog w1)) with p0 in He.
      rewrite length_range in Hlen2. lia. }
  split.
  { intros i Hi. rewrite (HnthB i Hi), Hlog', HlenA. reflexivity. }
  intros Hnone.
  destruct (Hcalm2 Hnone) as (HlA & HdA & Hnone2).
  change (oplog w1) with (oplog w) in HlA.
  change (List.length (oplog w)) with p0 in HlA.
  change (clock w1) with (clock w) in HlA, HdA.
  change (documents w1) with (documents w) in HdA.
  assert (Hnone5 : others w5 = []).
  { rewrite (only_streams_others _ _ Hs5), (only_streams_others _ _ Hs4),
      (only_streams_others _ _ Hs3). exact Hnone2. }
  destruct (Hcalm6 Hnone5) as (HlB & HdB & Hnone6).
  rewrite Hclock5, Hlog5 in HlB.
  assert (Hdocs5 : documents w5 = documents w2).
  { rewrite (only_streams_documents _ _ Hs5), (only_streams_documents _ _ Hs4).
    apply (only_streams_documents _ _ Hs3). }
  rewrite Hclock5, Hdocs5 in HdB.
  split; [| split].
  - rewrite Hlog', HlB, HlA, <- app_assoc. do 2 f_equal.
    rewrite length_app, length_appended, length_range. reflexivity.
  - rewrite (only_streams_documents _ _ Hs8), (only_streams_documents _ _ Hs7),
      HdB, HdA, <- app_assoc. reflexivity.
  - rewrite (only_streams_others _ _ Hs8), (only_streams_others _ _ Hs7).
    exact Hnone6.
Qed.

(** When the server answers at once and the retention window is not
    negative, scenario A returns. *)
Lemma scenario_A_returns K w :
  1 <= K ->
  responsive w ->
  0 <= window w ->
  exists evA evB w', resume_token_events env K w = Returned (evA, evB) w'.
Proof.
  intros HK Hr Hwin.
  set (p0 := List.length (oplog w)).
  set (k := Z.to_nat K).
  assert (Hneed : len (@nil change) + Z.of_nat (Datatypes.S (k - 1)) = K).
  { change (len (@nil change)) with 0. subst k. lia. }
  (* the first stream *)
  pose proof (watch_now_responsive w Hr) as Hw.
  set (w1 := set_cursors w
               (cursors w ++ [mk_cursor p0 (clock w) true])) in *.
  assert (Hr1 : responsive w1) by exact Hr.
  destruct (inserts_responsive initial_doc (range K) w1 Hr1) as (w2 & Hins).
  destruct (inserts_entries _ _ _ _ Hr1 Hins)
    as (Hd2 & (ext & Hl2 & Hlen2 & Ht2) & _).
  rewrite length_range in Hlen2.
  pose proof (only_data_responsive _ _ Hd2 Hr1) as Hr2.
  assert (Hcur2 : nth_error (cursors w2) (List.length (cursors w))
                  = Some (mk_cursor p0 (clock w) true)).
  { rewrite (only_data_cursors _ _ Hd2). apply nth_error_last. }
  destruct (collect_responsive (List.length (cursors w)) K (k - 1) []
              w2 p0 (clock w) Hr2 Hcur2 Hneed)
    as (evA & w3 & Hcol).
  { rewrite Hl2, length_app. change (List.length (oplog w1)) with p0.
    fold k in Hlen2. lia. }
  destruct (collect_taken _ _ _ _ _ _ _ HK Hr2 Hcur2 Hcol)
    as (Hs3 & HlenA & Hn3 & HnthA & Htime).
  pose proof (only_streams_responsive _ _ Hs3 Hr2) as Hr3.
  assert (Hcur3 : nth_error (cursors w3) (List.length (cursors w))
                  = Some (mk_cursor (p0 + k) (clock w) true)).
  { apply Htime. rewrite Hl2 in HnthA.
    eapply (taken_stamp (oplog w1) ext evA p0 k); eauto. }
  destruct (close_returns (List.length (cursors w)) w3) as (w4 & Hclose).
  pose proof (close_only_streams _ _ _ Hclose) as Hs4.
  pose proof (only_streams_responsive _ _ Hs4 Hr3) as Hr4.
  (* the second stream *)
  assert (Htok : resume_token env (List.length (cursors w)) w3
                 = mk_token (p0 + k) (clock w)).
  { simpl. unfold ls_resume_token. rewrite Hcur3. reflexivity. }
  assert (Hlog4 : oplog w4 = oplog w2).
  { rewrite (only_streams_oplog _ _ Hs4). apply (only_streams_oplog _ _ Hs3). }
  assert (Hclock4 : clock w4 = clock w).
  { rewrite (only_streams_clock _ _ Hs4), (only_streams_clock _ _ Hs3).
    apply (only_data_clock _ _ Hd2). }
  assert (Hwin4 : window w4 = window w).
  { rewrite (only_streams_window _ _ Hs4), (only_streams_window _ _ Hs3).
    apply (only_data_window _ _ Hd2). }
  pose proof (watch_resume_responsive (mk_token (p0 + k) (clock w)) w4 Hr4) as Hres.
  simpl in Hres. rewrite Hclock4, Hwin4, Z.sub_diag in Hres.
  assert (Hfresh : (0 >? window w) = false).
  { apply not_true_is_false. intros H. apply Z.gtb_lt in H. lia. }
  rewrite Hfresh in Hres.
  specialize (Hres ltac:(rewrite Hlog4, Hl2, length_app;
                         change (List.length (oplog w1)) with p0;
                         fold k in Hlen2; lia)).
  set (w5 := set_cursors w4
               (cursors w4 ++ [mk_cursor (p0 + k) (clock w) true])) in *.
  assert (Hr5 : responsive w5) by exact Hr4.
  destruct (inserts_responsive resumed_doc (range K) w5 Hr5) as (w6 & Hins').
  destruct (inserts_entries _ _ _ _ Hr5 Hins')
    as (Hd6 & (ext' & Hl6 & Hlen6 & _) & _).
  rewrite length_range in Hlen6.
  pose proof (only_data_responsive _ _ Hd6 Hr5) as Hr6.
  assert (Hcur6 : nth_error (cursors w6) (List.length (cursors w4))
                  = Some (mk_cursor (p0 + k) (clock w) true)).
  { rewrite (only_data_cursors _ _ Hd6). apply nth_error_last. }
  destruct (collect_responsive (List.length (cursors w4)) K (k - 1) []
              w6 (p0 + k) (clock w) Hr6 Hcur6 Hneed)
    as (evB & w7 & Hcol').
  { rewrite Hl6, length_app. change (oplog w5) with (oplog w4).
    rewrite Hlog4, Hl2, length_app. change (List.length (oplog w1)) with p0.
    fold k in Hlen2, Hlen6. lia. }
  destruct (close_returns (List.length (cursors w4)) w7) as (w' & Hclose').
  exists evA, evB, w'.
  eapply (resume_token_events_run env K w); try eassumption.
  rewrite Htok. exact Hres.
Qed.

(** *** Scenario B *)

(** The part of scenario B before the [try]: one event is collected, the
    token points behind it and carries the time of the insert; then the
    sleep either raises (a duration out of range, or negative) or moves
    the clock. *)
Lemma durability_pre_outcome d w :
  responsive w ->
  exists ev w4,
    responsive w4 /\ clock w4 = clock w /\ window w4 = window w /\
    (List.length (oplog w) + 1 <= List.length (oplog w4))%nat /\
    durability_pre env d w =
    if sleep_limit <? Z.abs d then Raised OverflowError w4
    else if d <? 0 then Raised ValueError w4
    else Returned ([ev], mk_token (List.length (oplog w) + 1) (clock w))
           (set_clock w4 (clock w + d)).
Proof.
  intros Hr.
  set (p0 := List.length (oplog w)).
  pose proof (watch_now_responsive w Hr) as Hw.
  set (w1 := set_cursors w
               (cursors w ++ [mk_cursor p0 (clock w) true])) in *.
  assert (Hr1 : responsive w1) by exact Hr.
  destruct (insert_one_responsive (pre_disconnect_doc (clock w)) w1 Hr1) as (w2 & Hi).
  destruct (insert_one_entry _ _ _ Hr1 Hi) as (Hd2 & ext & Hl2 & _ & _).
  change (oplog w1) with (oplog w) in Hl2.
  change (clock w1) with (clock w) in Hl2.
  fold p0 in Hl2.
  set (ev := mk_change p0 (pre_disconnect_doc (clock w)) (clock w)) in *.
  pose proof (only_data_responsive _ _ Hd2 Hr1) as Hr2.
  assert (Hcur2 : nth_error (cursors w2) (List.length (cursors w))
                  = Some (mk_cursor p0 (clock w) true)).
  { rewrite (only_data_cursors _ _ Hd2). apply nth_error_last. }
  assert (Hev : nth_error (oplog w2) p0 = Some ev).
  { rewrite Hl2, nth_error_app2 by (subst p0; lia).
    subst p0. rewrite Nat.sub_diag. reflexivity. }
  destruct (next_responsive _ _ _ _ _ Hr2 Hcur2 Hev) as (w3 & Hn & Hcur3).
  pose proof Hn as Hs3. simpl in Hs3. apply next_only_streams in Hs3; [| exact Hr2].
  pose proof (only_streams_responsive _ _ Hs3 Hr2) as Hr3.
  destruct (close_returns (List.length (cursors w)) w3) as (w4 & Hclose).
  pose proof (close_only_streams _ _ _ Hclose) as Hs4.
  exists ev, w4.
  split; [exact (only_streams_responsive _ _ Hs4 Hr3) |].
  assert (Hclock4 : clock w4 = clock w).
  { rewrite (only_streams_clock _ _ Hs4), (only_streams_clock _ _ Hs3).
    apply (only_data_clock _ _ Hd2). }
  split; [exact Hclock4 |].
  split.
  { rewrite (only_streams_window _ _ Hs4), (only_streams_window _ _ Hs3).
    apply (only_data_window _ _ Hd2). }
  split.
  { rewrite (only_streams_oplog _ _ Hs4), (only_streams_oplog _ _ Hs3), Hl2,
      length_app. simpl. fold p0. lia. }
  unfold durability_pre.
  rewrite (bind_step _ _ _ _ _ Hw).
  rewrite (bind_step (get_now env) _ w1 (clock w) w1 eq_refl).
  rewrite (bind_step _ _ _ _ _ Hi).
  assert (Hfirst : first_event env (List.length (cursors w)) w2 = Returned [ev] w3).
  { unfold first_event. rewrite (bind_step _ _ _ _ _ Hn). reflexivity. }
  rewrite (bind_step _ _ _ _ _ Hfirst).
  assert (Htok : resume_token env (List.length (cursors w)) w3
                 = mk_token (p0 + 1) (clock w)).
  { simpl. unfold ls_resume_token. rewrite Hcur3. simpl.
    f_equal. lia. }
  rewrite (bind_step (get_resume_token env (List.length (cursors w))) _ w3
             (mk_token (p0 + 1) (clock w)) w3)
    by (unfold get_resume_token; rewrite Htok; reflexivity).
  rewrite (bind_step (close env (List.length (cursors w))) _ w3 tt w4 Hclose).
  unfold bind, ret. simpl. unfold ls_sleep. rewrite Hclock4.
  destruct (sleep_limit <? Z.abs d); [reflexivity |].
  destruct (d <? 0); reflexivity.
Qed.

(** The [try] body of scenario B, run with a token that points into the
    log: past the retention window the reopening raises; otherwise one
    event is collected. *)
Lemma durability_post_outcome tok w :
  responsive w ->
  (tok_pos tok < List.length (oplog w) + 1)%nat ->
  (window w < clock w - tok_time tok ->
   durability_post_events env tok w = Raised ResumeError w) /\
  (clock w - tok_time tok <= window w ->
   exists ev w',
     durability_post_events env tok w = Returned [ev] w' /\
     responsive w' /\ window w' = window w /\
     exists c,
       nth_error (cursors w') (List.length (cursors w)) = Some c /\
       alive c = false).
Proof.
  intros Hr Hpos.
  pose proof (watch_resume_responsive tok w Hr ltac:(lia)) as Hres.
  split.
  - intros Hold.
    assert (Hb : (clock w - tok_time tok >? window w) = true)
      by (apply Z.gtb_lt; lia).
    rewrite Hb in Hres.
    unfold durability_post_events, bind.
    change (watch env (Some tok) w) with (ls_watch (Some tok) w).
    rewrite Hres. reflexivity.
  - intros Hfresh.
    assert (Hb : (clock w - tok_time tok >? window w) = false).
    { apply not_true_is_false. intros H. apply Z.gtb_lt in H. lia. }
    rewrite Hb in Hres.
    set (w1 := set_cursors w
                 (cursors w ++ [mk_cursor (tok_pos tok) (tok_time tok) true])) in *.
    assert (Hr1 : responsive w1) by exact Hr.
    destruct (insert_one_responsive (post_disconnect_doc (clock w)) w1 Hr1)
      as (w2 & Hi).
    destruct (insert_one_entry _ _ _ Hr1 Hi) as (Hd2 & ext & Hl2 & _ & _).
    change (oplog w1) with (oplog w) in Hl2.
    pose proof (only_data_responsive _ _ Hd2 Hr1) as Hr2.
    assert (Hcur2 : nth_error (cursors w2) (List.length (cursors w))
                    = Some (mk_cursor (tok_pos tok) (tok_time tok) true)).
    { rewrite (only_data_cursors _ _ Hd2). apply nth_error_last. }
    destruct (nth_error (oplog w2) (tok_pos tok)) as [ev |] eqn:Hev.
    2:{ apply nth_error_None in Hev. rewrite Hl2, length_app in Hev.
        simpl in Hev. lia. }
    destruct (next_responsive _ _ _ _ _ Hr2 Hcur2 Hev) as (w3 & Hn & Hcur3).
    pose proof Hn as Hs3. simpl in Hs3.
    apply next_only_streams in Hs3; [| exact Hr2].
    pose proof (only_streams_responsive _ _ Hs3 Hr2) as Hr3.
    destruct (close_returns (List.length (cursors w)) w3) as (w' & Hclose).
    pose proof (close_only_streams _ _ _ Hclose) as Hs4.
    destruct (close_cursor _ _ _ _ Hcur3 Hclose) as (Hcur4 & _).
    exists ev, w'. split; [| split; [| split]].
    + unfold durability_post_events.
      change (watch env (Some tok)) with (ls_watch (Some tok)).
      rewrite (bind_step _ _ _ _ _ Hres).
      rewrite (bind_step (get_now env) _ w1 (clock w) w1 eq_refl).
      rewrite (bind_step _ _ _ _ _ Hi).
      assert (Hfirst : first_event env (List.length (cursors w)) w2
                       = Returned [ev] w3).
      { unfold first_event. rewrite (bind_step _ _ _ _ _ Hn). reflexivity. }
      rewrite (bind_step _ _ _ _ _ Hfirst).
      rewrite (bind_step (close env (List.length (cursors w))) _ w3 tt w' Hclose).
      reflexivity.
    + exact (only_streams_responsive _ _ Hs4 Hr3).
    + rewrite (only_streams_window _ _ Hs4), (only_streams_window _ _ Hs3).
      apply (only_data_window _ _ Hd2).
    + eexists. split; [exact Hcur4 | reflexivity].
Qed.

Lemma durability_overflows d w :
  responsive w -> sleep_limit < Z.abs d ->
  exists w', test_stream_durability env d w = Raised OverflowError w'.
Proof.
  intros Hr Hd.
  destruct (durability_pre_outcome d w Hr) as (ev & w4 & _ & _ & _ & _ & Hpre).
  assert (Ho : (sleep_limit <? Z.abs d) = true) by (apply Z.ltb_lt; exact Hd).
  rewrite Ho in Hpre. exists w4.
  unfold test_stream_durability, bind. rewrite Hpre. reflexivity.
Qed.

Lemma durability_rejects d w :
  responsive w -> - sleep_limit <= d < 0 ->
  exists w', test_stream_durability env d w = Raised ValueError w'.
Proof.
  intros Hr Hd.
  destruct (durability_pre_outcome d w Hr) as (ev & w4 & _ & _ & _ & _ & Hpre).
  assert (Ho : (sleep_limit <? Z.abs d) = false) by (apply Z.ltb_ge; lia).
  assert (Hb : (d <? 0) = true) by (apply Z.ltb_lt; lia).
  rewrite Ho, Hb in Hpre. exists w4.
  unfold test_stream_durability, bind. rewrite Hpre. reflexivity.
Qed.

Lemma durability_resumes d w :
  responsive w -> 0 <= d <= window w -> d <= sleep_limit ->
  exists w',
    test_stream_durability env d w =
    Returned {| pre_disconnect_events := 1; post_disconnect_events := 1;
                d_success := true; error := None |} w' /\
    responsive w' /\ window w' = window w.
Proof.
  intros Hr Hd Hlim.
  destruct (durability_pre_outcome d w Hr)
    as (ev & w4 & Hr4 & Hclock4 & Hwin4 & Hlen4 & Hpre).
  assert (Ho : (sleep_limit <? Z.abs d) = false) by (apply Z.ltb_ge; lia).
  assert (Hb : (d <? 0) = false) by (apply Z.ltb_ge; lia).
  rewrite Ho, Hb in Hpre.
  set (w5 := set_clock w4 (clock w + d)) in *.
  assert (Hr5 : responsive w5) by exact Hr4.
  destruct (durability_post_outcome
              (mk_token (List.length (oplog w) + 1) (clock w)) w5 Hr5)
    as (_ & Hpost).
  { simpl. lia. }
  destruct Hpost as (ev' & w' & Hpost & Hr' & Hwin' & _).
  { simpl. change (window w4) with (window w4). rewrite Hwin4. lia. }
  exists w'. split; [| split; [exact Hr' | rewrite Hwin'; exact Hwin4]].
  rewrite (test_stream_durability_try env _ _ _ _ _ Hpre).
  apply try_except_returned. unfold durability_try.
  rewrite (bind_step _ _ _ _ _ Hpost). reflexivity.
Qed.

Lemma durability_expires d w :
  responsive w -> 0 <= d <= sleep_limit -> window w < d ->
  exists w',
    test_stream_durability env d w =
    Returned {| pre_disconnect_events := 1; post_disconnect_events := 0;
                d_success := false; error := Some (str ResumeError) |} w' /\
    responsive w' /\ window w' = window w.
Proof.
  intros Hr Hd Hold.
  destruct (durability_pre_outcome d w Hr)
    as (ev & w4 & Hr4 & Hclock4 & Hwin4 & Hlen4 & Hpre).
  assert (Ho : (sleep_limit <? Z.abs d) = false) by (apply Z.ltb_ge; lia).
  assert (Hb : (d <? 0) = false) by (apply Z.ltb_ge; lia).
  rewrite Ho, Hb in Hpre.
  set (w5 := set_clock w4 (clock w + d)) in *.
  assert (Hr5 : responsive w5) by exact Hr4.
  destruct (durability_post_outcome
              (mk_token (List.length (oplog w) + 1) (clock w)) w5 Hr5)
    as (Hpost & _).
  { simpl. lia. }
  specialize (Hpost ltac:(simpl; rewrite Hwin4; lia)).
  exists w5. split; [| split; [exact Hr5 | exact Hwin4]].
  rewrite (test_stream_durability_try env _ _ _ _ _ Hpre).
  erewrite try_except_raised; [reflexivity | | reflexivity].
  unfold durability_try, bind. rewrite Hpost. reflexivity.
Qed.

Lemma scenario_A_outcome K w :
  1 <= K -> responsive w -> 0 <= window w ->
  exists w',
    test_resume_token_persistence env K w =
    Returned {| initial_events := K; resumed_events := K; success := true |} w' /\
    responsive w' /\ window w' = window w.
Proof.
  intros HK Hr Hwin.
  destruct (scenario_A_returns K w HK Hr Hwin) as (evA & evB & w' & Hrun).
  destruct (scenario_A_shape K w evA evB w' HK Hr Hrun)
    as (Hr' & Hwin' & _ & HlenA & HlenB & _).
  exists w'. split; [| split; assumption].
  apply test_resume_token_persistence_returned. exists evA, evB.
  split; [exact Hrun |].
  assert (HA : len evA = K) by (unfold len; lia).
  assert (HB : len evB = K) by (unfold len; lia).
  rewrite HA, HB, Z.eqb_refl. reflexivity.
Qed.

Lemma setup_responsive w :
  responsive w ->
  setup env w = Returned tt (set_indexes (set_documents w []) ["_id"]).
Proof.
  intros Hr. unfold setup. simpl. unfold ls_drop, ls_create_index, bind.
  rewrite (request_responsive w Hr).
  assert (Hr0 : responsive (set_indexes (set_documents w []) [])) by exact Hr.
  rewrite (request_responsive _ Hr0). reflexivity.
Qed.

(** *** Raising calls leave the world as it was *)

Lemma request_raised w e w' : request w = Raised e w' -> w' = w.
Proof.
  unfold request. destruct (uptime w) as [[| n] |]; intros H;
    try discriminate H. injection H as _ <-. reflexivity.
Qed.

Lemma insert_one_raised d w e w' : ls_insert_one d w = Raised e w' -> w' = w.
Proof.
  unfold ls_insert_one, bind.
  destruct (request w) as [[] wr | e1 wr |] eqn:Hreq; try discriminate.
  - destruct (others (commit d wr)); discriminate.
  - intros H. injection H as _ <-. eapply request_raised. exact Hreq.
Qed.

Lemma next_raised h w e w' : ls_next h w = Raised e w' -> w' = w.
Proof.
  unfold ls_next, bind.
  destruct (nth_error (cursors w) h) as [c |].
  - destruct (alive c); [| discriminate].
    destruct (request w) as [[] wr | e1 wr |] eqn:Hreq; try discriminate.
    + destruct (nth_error (oplog wr) (cur_pos c)); discriminate.
    + intros H. injection H as _ <-. eapply request_raised. exact Hreq.
  - intros H. injection H as _ <-. reflexivity.
Qed.

Lemma in_appended mk base t xs e :
  In e (appended mk base t xs) ->
  (base <= seq_no e < base + List.length xs)%nat.
Proof.
  revert base. induction xs as [| x xs IH]; intros base; simpl; [tauto |].
  intros [<- | H]; [simpl; lia |]. apply IH in H. lia.
Qed.

Lemma documents_appended mk base t xs :
  map full_document (appended mk base t xs) = map (fun i => mk i t) xs.
Proof.
  revert base. induction xs as [| x xs IH]; intros base; simpl; [reflexivity |].
  rewrite IH. reflexivity.
Qed.

(** A buffer that agrees with a stretch of the log is that stretch. *)
Lemma buffer_is_stretch (evs stretch before after : list change) :
  List.length evs = List.length stretch ->
  (forall i, (i < List.length stretch)%nat ->
             nth_error evs i
             = nth_error (before ++ stretch ++ after) (List.length before + i)) ->
  evs = stretch.
Proof.
  intros Hlen Hnth. apply nth_error_ext. intros i.
  destruct (Nat.lt_ge_cases i (List.length stretch)) as [Hi | Hi].
  - rewrite (Hnth i Hi), nth_error_app2 by lia.
    replace (List.length before + i - List.length before)%nat with i by lia.
    apply nth_error_app1. exact Hi.
  - rewrite (proj2 (nth_error_None _ _)) by lia.
    symmetry. apply nth_error_None. exact Hi.
Qed.

(** *** No call of the scenarios removes a document *)

Ltac same_collection :=
  split; [exists []; rewrite app_nil_r; reflexivity | reflexivity].

Lemma keeps_refl w : keeps w w.
Proof. split; [exists []; rewrite app_nil_r; reflexivity | reflexivity]. Qed.

Lemma keeps_trans u v x : keeps u v -> keeps v x -> keeps u x.
Proof.
  intros [(e1 & H1) I1] [(e2 & H2) I2]. split.
  - exists (e1 ++ e2). rewrite H2, H1, app_assoc. reflexivity.
  - rewrite I2. exact I1.
Qed.

Lemma request_keeps : respects keeps request.
Proof.
  intros w w'. unfold ends, request.
  destruct (uptime w) as [[| n] |]; intros [(a & H) | (e & H)];
    try discriminate H; injection H; intros; subst; same_collection.
Qed.

Lemma after_request_keeps {A : Type} (m : M world A) :
  respects keeps m -> respects keeps (request ;;; m).
Proof.
  intros Hm w w' Hends. unfold ends, bind in Hends.
  destruct (request w) as [[] wr | e wr |] eqn:Hreq.
  - apply (keeps_trans w wr w').
    + apply request_keeps. left. exists tt. exact Hreq.
    + apply Hm. exact Hends.
  - apply request_keeps. right. exists e. rewrite Hreq.
    destruct Hends as [(a & H) | (e' & H)]; [discriminate H |].
    injection H as _ <-. reflexivity.
  - destruct Hends as [(a & H) | (e' & H)]; discriminate H.
Qed.

Lemma watch_keeps o : respects keeps (ls_watch o).
Proof.
  unfold ls_watch. apply after_request_keeps.
  intros w w'. unfold ends, open_cursor.
  destruct o as [t |];
    [destruct ((clock w - tok_time t >? window w)
               || (List.length (oplog w) <? tok_pos t)%nat) |];
    intros [(a & H) | (e & H)];
    try discriminate H; injection H; intros; subst; same_collection.
Qed.

Lemma insert_one_keeps d : respects keeps (ls_insert_one d).
Proof.
  unfold ls_insert_one. apply after_request_keeps.
  intros w w'. unfold ends.
  destruct (others (commit d w)) as [| f rest];
    intros [(a & H) | (e & H)]; try discriminate H;
    injection H; intros; subst.
  - split; [exists [d]; reflexivity | reflexivity].
  - split; [exists [d; f]; simpl; rewrite <- app_assoc; reflexivity | reflexivity].
Qed.

Lemma next_keeps h : respects keeps (ls_next h).
Proof.
  intros w w'. unfold ends, ls_next.
  destruct (nth_error (cursors w) h) as [c |].
  - destruct (alive c).
    + intros Hends. refine (after_request_keeps _ _ w w' Hends).
      intros u u'. unfold ends.
      destruct (nth_error (oplog u) (cur_pos c));
        intros [(a & H) | (e & H)];
        try discriminate H; injection H; intros; subst; same_collection.
    + intros [(a & H) | (e & H)];
        try discriminate H; injection H; intros; subst; same_collection.
  - intros [(a & H) | (e & H)];
      try discriminate H; injection H; intros; subst; same_collection.
Qed.

Lemma close_keeps h : respects keeps (ls_close h).
Proof.
  intros w w'. unfold ends, ls_close.
  destruct (nth_error (cursors w) h) as [c |];
    intros [(a & H) | (e & H)];
    try discriminate H; injection H; intros; subst; same_collection.
Qed.

Lemma sleep_keeps d : respects keeps (ls_sleep d).
Proof.
  intros w w'. unfold ends, ls_sleep.
  destruct (sleep_limit <? Z.abs d); [| destruct (d <? 0)];
    intros [(a & H) | (e & H)];
    try discriminate H; injection H; intros; subst; same_collection.
Qed.

Lemma setup_empties w w' :
  setup env w = Returned tt w' -> documents w' = [] /\ indexes w' = ["_id"].
Proof.
  unfold setup. simpl. unfold ls_drop, ls_create_index, bind.
  destruct (request w) as [[] w1 | |]; try discriminate.
  unfold request. simpl.
  destruct (uptime w1) as [[| n] |]; intros H; try discriminate H;
    injection H as <-; split; reflexivity.
Qed.

End Deployment.

(** ** How the methods behave on the log-based collection *)

Module Behaviour.
Import LogSource Scenarios LogSourceFacts Deployment.

(** X7: when the server answers at once and the retention window is not
    negative, [test_resume_token_persistence] returns for every
    [iterations >= 1], with [iterations] events in both buffers and
    [success = True], whatever the collection held and whatever other
    clients write. *)
Theorem resume_test_succeeds K w :
  1 <= K -> responsive w -> 0 <= window w ->
  exists w',
    test_resume_token_persistence env K w =
    Returned {| initial_events := K; resumed_events := K; success := true |} w'.
Proof.
  intros HK Hr Hwin.
  destruct (scenario_A_outcome K w HK Hr Hwin) as (w' & H & _).
  exists w'. exact H.
Qed.

(** X8: when the server answers at once, the outcome of
    [test_stream_durability] is decided by the disconnect duration alone.
    A duration that [time.sleep] cannot convert (more than [sleep_limit]
    seconds in absolute value) makes it raise [OverflowError], and any
    other negative duration [ValueError]; both are raised outside the
    [try] and leave the method.  A duration the sleep accepts gives one
    event before and one after and [success = True] when it is within the
    retention window, and the failure result carrying the resume error
    when it is longer. *)
Theorem durability_by_retention d w :
  responsive w ->
  (sleep_limit < Z.abs d ->
   exists w', test_stream_durability env d w = Raised OverflowError w') /\
  (- sleep_limit <= d < 0 ->
   exists w', test_stream_durability env d w = Raised ValueError w') /\
  (0 <= d <= sleep_limit -> d <= window w ->
   exists w',
     test_stream_durability env d w =
     Returned {| pre_disconnect_events := 1; post_disconnect_events := 1;
                 d_success := true; error := None |} w') /\
  (0 <= d <= sleep_limit -> window w < d ->
   exists w',
     test_stream_durability env d w =
     Returned {| pre_disconnect_events := 1; post_disconnect_events := 0;
                 d_success := false; error := Some (str ResumeError) |} w').
Proof.
  intros Hr. split; [| split; [| split]].
  - intros Hd. exact (durability_overflows d w Hr Hd).
  - intros Hd. exact (durability_rejects d w Hr Hd).
  - intros Hd Hin.
    destruct (durability_resumes d w Hr ltac:(lia) ltac:(lia)) as (w' & H & _).
    eauto.
  - intros Hd Hold.
    destruct (durability_expires d w Hr Hd Hold) as (w' & H & _). eauto.
Qed.

(** X9: when the server answers at once and no other client writes, the
    two buffers of a returned run of scenario A hold exactly the documents
    the method inserted, in insertion order: [{"test": i}] for the first,
    [{"test": "resumed_i"}] for the second; no event is in both, and the
    collection has grown by exactly these documents. *)
Theorem resume_buffers_are_the_inserts K w evA evB w' :
  1 <= K -> responsive w -> others w = [] ->
  resume_token_events env K w = Returned (evA, evB) w' ->
  map full_document evA = map (fun i => initial_doc i (clock w)) (range K) /\
  map full_document evB = map (fun i => resumed_doc i (clock w)) (range K) /\
  (forall e, In e evB -> ~ In e evA) /\
  documents w' = documents w
                 ++ map (fun i => initial_doc i (clock w)) (range K)
                 ++ map (fun i => resumed_doc i (clock w)) (range K).
Proof.
  intros HK Hr Hnone Hrun.
  destruct (scenario_A_shape K w evA evB w' HK Hr Hrun)
    as (_ & _ & _ & HlenA & HlenB & HnthA & HnthB & Hcalm).
  destruct (Hcalm Hnone) as (Hlog & Hdocs & _).
  set (p0 := List.length (oplog w)) in *.
  set (k := Z.to_nat K) in *.
  set (A := appended initial_doc p0 (clock w) (range K)) in *.
  set (B := appended resumed_doc (p0 + k) (clock w) (range K)) in *.
  assert (HlA : List.length A = k).
  { subst A. rewrite length_appended. apply length_range. }
  assert (HlB : List.length B = k).
  { subst B. rewrite length_appended. apply length_range. }
  assert (HA : evA = A).
  { apply (buffer_is_stretch evA A (oplog w) B); [congruence |].
    intros i Hi. rewrite <- Hlog. apply HnthA. lia. }
  assert (HB : evB = B).
  { apply (buffer_is_stretch evB B (oplog w ++ A) []); [congruence |].
    intros i Hi. rewrite app_nil_r, <- app_assoc, <- Hlog, length_app, HlA.
    apply HnthB. lia. }
  split; [rewrite HA; apply documents_appended |].
  split; [rewrite HB; apply documents_appended |].
  split; [| exact Hdocs].
  intros e HeB HeA. rewrite HA in HeA. rewrite HB in HeB.
  apply in_appended in HeA. apply in_appended in HeB.
  rewrite length_range in HeA. fold k in HeA. lia.
Qed.

(** X10: when the server answers at once and the retention window is not
    negative, [run_all_tests] returns whatever the collection held; the
    resume-token result is [{5, 5, True}], and the durability result is
    the success result if the window is at least the five seconds of the
    default disconnect, the failure result carrying the resume error
    otherwise. *)
Theorem run_all_tests_outcome w :
  responsive w -> 0 <= window w ->
  exists w',
    run_all_tests env w =
    Returned
      {| resume_token_test :=
           {| initial_events := 5; resumed_events := 5; success := true |};
         durability_test :=
           if 5 <=? window w
           then {| pre_disconnect_events := 1; post_disconnect_events := 1;
                   d_success := true; error := None |}
           else {| pre_disconnect_events := 1; post_disconnect_events := 0;
                   d_success := false; error := Some (str ResumeError) |} |} w'.
Proof.
  intros Hr Hwin.
  pose proof (setup_responsive w Hr) as Hsetup.
  set (w1 := set_indexes (set_documents w []) ["_id"]) in *.
  assert (Hr1 : responsive w1) by exact Hr.
  destruct (scenario_A_outcome 5 w1 ltac:(lia) Hr1 Hwin) as (w2 & HA & Hr2 & Hwin2).
  change (window w1) with (window w) in Hwin2.
  unfold run_all_tests, default_iterations, default_disconnect_duration.
  rewrite (bind_step _ _ _ _ _ Hsetup).
  rewrite (bind_step _ _ _ _ _ HA).
  destruct (5 <=? window w) eqn:Hfive.
  - apply Z.leb_le in Hfive.
    destruct (durability_resumes 5 w2 Hr2 ltac:(lia)
                ltac:(unfold sleep_limit; lia)) as (w' & HB & _).
    exists w'. rewrite (bind_step _ _ _ _ _ HB). reflexivity.
  - apply Z.leb_gt in Hfive.
    destruct (durability_expires 5 w2 Hr2 ltac:(unfold sleep_limit; lia)
                ltac:(lia)) as (w' & HB & _).
    exists w'. rewrite (bind_step _ _ _ _ _ HB). reflexivity.
Qed.

(** X11: in [test_stream_durability], the stream reopened inside the
    [try] is closed on the way out exactly when no error is recorded: if
    the insert or the iteration after the reopening raises, the method
    returns its failure result and leaves that stream open. *)
Theorem reopened_stream_closed_iff d w pre tok w1 s wa r w2 :
  durability_pre env d w = Returned (pre, tok) w1 ->
  watch env (Some tok) w1 = Returned s wa ->
  test_stream_durability env d w = Returned r w2 ->
  exists c,
    nth_error (cursors w2) s = Some c /\
    (alive c = false <-> error r = None).
Proof.
  intros Hpre Hwatch Hres.
  rewrite (test_stream_durability_try env _ _ _ _ _ Hpre) in Hres.
  pose proof Hwatch as Hf. simpl in Hf.
  apply watch_resume_returned in Hf as (_ & Hs & Hca).
  assert (Hcura : nth_error (cursors wa) s
                  = Some (mk_cursor (tok_pos tok) (tok_time tok) true)).
  { rewrite Hca, Hs. apply nth_error_last. }
  unfold try_except, durability_try, durability_except, durability_post_events,
    first_event, get_now in Hres.
  unfold bind at 1 2 in Hres. rewrite Hwatch in Hres.
  unfold bind at 1 2 in Hres.
  destruct (insert_one env (post_disconnect_doc (now env wa)) wa)
    as [[] wb | e wb |] eqn:Hi.
  - simpl in Hi. pose proof (insert_one_grows _ _ _ Hi) as (Hcb & _).
    assert (Hcurb : nth_error (cursors wb) s
                    = Some (mk_cursor (tok_pos tok) (tok_time tok) true))
      by (rewrite Hcb; exact Hcura).
    unfold bind at 1 2 3 in Hres.
    destruct (next env s wb) as [o wc | e wc |] eqn:Hn.
    + simpl in Hn.
      destruct (next_alive _ _ _ _ _ _ Hcurb Hn) as (ev & -> & _ & _ & Hcc).
      assert (Hcurc : nth_error (cursors wc) s
                      = Some (mk_cursor (Datatypes.S (tok_pos tok))
                                (cluster_time ev) true)).
      { rewrite Hcc. eapply nth_error_update. exact Hcurb. }
      unfold ret at 1 in Hres. unfold bind in Hres.
      destruct (close env s wc) as [[] wd | e wd |] eqn:Hc.
      * simpl in Hc. destruct (close_cursor _ _ _ _ Hcurc Hc) as (Hcurd & _).
        unfold ret in Hres. injection Hres as <- <-.
        eexists. split; [exact Hcurd |]. simpl. split; reflexivity.
      * simpl in Hc. unfold ls_close in Hc.
        destruct (nth_error (cursors wc) s); discriminate Hc.
      * simpl in Hc. unfold ls_close in Hc.
        destruct (nth_error (cursors wc) s); discriminate Hc.
    + simpl in Hn. apply next_raised in Hn. subst wc.
      destruct (is_exception e); [| discriminate Hres].
      unfold ret in Hres. injection Hres as <- <-.
      eexists. split; [exact Hcurb |]. simpl. split; discriminate.
    + discriminate Hres.
  - simpl in Hi. apply insert_one_raised in Hi. subst wb.
    destruct (is_exception e); [| discriminate Hres].
    unfold ret in Hres. injection Hres as <- <-.
    eexists. split; [exact Hcura |]. simpl. split; discriminate.
  - discriminate Hres.
Qed.

(** X12: neither scenario method removes or rewrites a document of the
    collection or touches its indexes, whatever the state of the server
    and whatever other clients do: however
    [test_resume_token_persistence] or [test_stream_durability] comes
    back, with a result or with an exception, the collection holds what
    it held before, followed by what was inserted meanwhile.  Only
    [setup] empties the collection. *)
Theorem scenarios_keep_the_collection :
  (forall iterations w w',
      ends (test_resume_token_persistence env iterations) w w' -> keeps w w') /\
  (forall d w w',
      ends (test_stream_durability env d) w w' -> keeps w w') /\
  (forall w w',
      setup env w = Returned tt w' -> documents w' = [] /\ indexes w' = ["_id"]).
Proof.
  split; [| split].
  - intros iterations.
    apply (respects_test_resume_token_persistence env keeps keeps_refl keeps_trans
             watch_keeps insert_one_keeps next_keeps close_keeps).
  - intros d.
    apply (respects_test_stream_durability env keeps keeps_refl keeps_trans
             watch_keeps insert_one_keeps next_keeps close_keeps sleep_keeps).
  - exact setup_empties.
Qed.

(** X14: when the server answers at once and no other client writes, the
    event collected before the disconnect is the pre-disconnect document
    and the event collected after a successful resume is the
    post-disconnect document, stamped with the times of their inserts,
    [disconnect_duration] apart. *)
Theorem durability_events_are_the_inserts d w pre tok w1 post w2 :
  responsive w -> others w = [] ->
  durability_pre env d w = Returned (pre, tok) w1 ->
  durability_post_events env tok w1 = Returned post w2 ->
  map full_document pre = [pre_disconnect_doc (clock w)] /\
  map full_document post = [post_disconnect_doc (clock w + d)] /\
  clock w2 = clock w + d.
Proof.
  intros Hr Hnone Hpre Hpost.
  set (p0 := List.length (oplog w)).
  (* before the disconnect *)
  unfold durability_pre in Hpre.
  split_bind_once Hpre. rename a into cs, w0 into u1, Hm into Hw.
  split_bind_once Hpre. unfold get_now in Hm. injection Hm as <- <-.
  split_bind_once Hpre. rename w0 into u2, Hm into Hi. destruct a.
  split_bind_once Hpre. rename a into evs, w0 into u3, Hm into Hfirst.
  split_bind_once Hpre. unfold get_resume_token in Hm. injection Hm as <- <-.
  split_bind_once Hpre. rename w0 into u4, Hm into Hclose. destruct a.
  split_bind_once Hpre. rename w0 into u5, Hm into Hsleep. destruct a.
  unfold ret in Hpre. injection Hpre as <- <- <-.
  simpl in Hw, Hi, Hclose, Hsleep.
  rewrite (watch_now_responsive w Hr) in Hw. injection Hw as <- <-.
  set (v1 := set_cursors w (cursors w ++ [mk_cursor p0 (clock w) true])) in *.
  assert (Hr1 : responsive v1) by exact Hr.
  destruct (insert_one_entry _ _ _ Hr1 Hi) as (Hd2 & ext & Hl2 & _ & Hcalm).
  destruct (Hcalm Hnone) as (-> & _ & Hnone2).
  change (oplog v1) with (oplog w) in Hl2. change (clock v1) with (clock w) in Hl2.
  fold p0 in Hl2.
  pose proof (only_data_responsive _ _ Hd2 Hr1) as Hr2.
  assert (Hcur2 : nth_error (cursors u2) (List.length (cursors w))
                  = Some (mk_cursor p0 (clock w) true)).
  { rewrite (only_data_cursors _ _ Hd2). apply nth_error_last. }
  apply first_event_cases in Hfirst as [(c & Hn & ->) | (Hn & ->)]; simpl in Hn.
  2:{ destruct (next_alive _ _ _ _ _ _ Hcur2 Hn) as (c & Hc & _). discriminate Hc. }
  pose proof (next_only_streams _ _ _ _ Hr2 Hn) as Hs3.
  destruct (next_alive _ _ _ _ _ _ Hcur2 Hn) as (c0 & Hc0 & Hev & _ & Hc3).
  injection Hc0 as <-.
  rewrite Hl2 in Hev.
  match type of Hev with
  | nth_error (_ ++ [?entry]) _ = _ =>
      assert (He : nth_error (oplog w ++ [entry]) p0 = Some entry)
        by apply nth_error_last
  end.
  rewrite He in Hev. injection Hev as <-. clear He.
  assert (Hcur3 : nth_error (cursors u3) (List.length (cursors w))
                  = Some (mk_cursor (Datatypes.S p0) (clock w) true)).
  { rewrite Hc3. eapply nth_error_update. exact Hcur2. }
  pose proof (only_streams_responsive _ _ Hs3 Hr2) as Hr3.
  pose proof (close_only_streams _ _ _ Hclose) as Hs4.
  pose proof (only_streams_responsive _ _ Hs4 Hr3) as Hr4.
  assert (Hclock4 : clock u4 = clock w).
  { rewrite (only_streams_clock _ _ Hs4), (only_streams_clock _ _ Hs3).
    apply (only_data_clock _ _ Hd2). }
  unfold ls_sleep in Hsleep.
  destruct (sleep_limit <? Z.abs d); [discriminate Hsleep |].
  destruct (d <? 0); [discriminate Hsleep |]. injection Hsleep as <-.
  set (v5 := set_clock u4 (clock u4 + d)) in *.
  assert (Hr5 : responsive v5) by exact Hr4.
  assert (Hlog5 : oplog v5 = oplog w ++ [mk_change p0 (pre_disconnect_doc (clock w)) (clock w)]).
  { change (oplog v5) with (oplog u4).
    rewrite (only_streams_oplog _ _ Hs4), (only_streams_oplog _ _ Hs3). exact Hl2. }
  assert (Hnone5 : others v5 = []).
  { change (others v5) with (others u4).
    rewrite (only_streams_others _ _ Hs4), (only_streams_others _ _ Hs3).
    exact Hnone2. }
  assert (Hclock5 : clock v5 = clock w + d) by (simpl; rewrite Hclock4; reflexivity).
  split; [reflexivity |].
  (* after the disconnect *)
  assert (Htok : ls_resume_token (List.length (cursors w)) u3
                 = mk_token (Datatypes.S p0) (clock w)).
  { unfold ls_resume_token. rewrite Hcur3. reflexivity. }
  simpl resume_token in Hpost. rewrite Htok in Hpost.
  unfold durability_post_events in Hpost.
  split_bind_once Hpost. rename a into s, w0 into x1, Hm into Hres.
  split_bind_once Hpost. unfold get_now in Hm. injection Hm as <- <-.
  split_bind_once Hpost. rename w0 into x2, Hm into Hi'. destruct a.
  split_bind_once Hpost. rename a into evs', w0 into x3, Hm into Hfirst'.
  split_bind_once Hpost. rename w0 into x4, Hm into Hclose'. destruct a.
  unfold ret in Hpost. injection Hpost as <- <-.
  simpl in Hres, Hi', Hclose'.
  pose proof (watch_only_streams _ _ _ _ Hr5 Hres) as Hx1.
  pose proof (only_streams_responsive _ _ Hx1 Hr5) as Hrx1.
  apply watch_resume_returned in Hres as (_ & Hs & Hcx1). simpl in Hcx1.
  destruct (insert_one_entry _ _ _ Hrx1 Hi') as (Hdx2 & ext' & Hlx2 & _ & Hcalm').
  destruct (Hcalm' ltac:(rewrite (only_streams_others _ _ Hx1); exact Hnone5))
    as (-> & _ & _).
  rewrite (only_streams_oplog _ _ Hx1), (only_streams_clock _ _ Hx1),
    Hlog5, Hclock5 in Hlx2.
  pose proof (only_data_responsive _ _ Hdx2 Hrx1) as Hrx2.
  assert (Hcurx2 : nth_error (cursors x2) s
                   = Some (mk_cursor (Datatypes.S p0) (clock w) true)).
  { rewrite (only_data_cursors _ _ Hdx2), Hcx1, Hs. apply nth_error_last. }
  apply first_event_cases in Hfirst' as [(c & Hn' & ->) | (Hn' & ->)]; simpl in Hn'.
  2:{ destruct (next_alive _ _ _ _ _ _ Hcurx2 Hn') as (c & Hc & _). discriminate Hc. }
  pose proof (next_only_streams _ _ _ _ Hrx2 Hn') as Hx3.
  destruct (next_alive _ _ _ _ _ _ Hcurx2 Hn') as (c0 & Hc0 & Hev' & _).
  injection Hc0 as <-.
  rewrite Hlx2 in Hev'.
  match type of Hev' with
  | nth_error (?l ++ [?entry]) _ = _ =>
      assert (He : nth_error (l ++ [entry]) (Datatypes.S p0) = Some entry)
        by (replace (Datatypes.S p0) with (List.length l)
              by (rewrite length_app; simpl; subst p0; lia);
            apply nth_error_last)
  end.
  rewrite He in Hev'. injection Hev' as <-. clear He.
  split; [reflexivity |].
  pose proof (close_only_streams _ _ _ Hclose') as Hx4.
  rewrite (only_streams_clock _ _ Hx4), (only_streams_clock _ _ Hx3),
    (only_data_clock _ _ Hdx2), (only_streams_clock _ _ Hx1).
  exact Hclock5.
Qed.

End Behaviour.

(** ** More runs on the log-based collection *)

Module FurtherRuns.
Import LogSource Scenarios LogSourceFacts Deployment.

Lemma responsive_quiet retention : responsive (quiet retention).
Proof. split; reflexivity. Qed.

(** One change pending, one asked for, starting from an empty buffer;
    and one change pending, three asked for, starting from a buffer that
    holds one event already, on a server that ends the stream: the loop
    adds the pending change and returns the two events. *)
Lemma collect_extends_run :
  (exists evs w',
      collect env 0%nat 1 [] one_pending = Returned evs w' /\
      exists more,
        evs = [] ++ more /\
        len more <= Z.max 1 (1 - len (@nil change)) /\
        (pulled env 0%nat one_pending more w' \/
         exists w2, pulled env 0%nat one_pending more w2 /\
                    next env 0%nat w2 = Returned None w')) /\
  (exists evs w',
      collect ending 0%nat 3 [mk_change 9 foreign_doc 0] one_pending
      = Returned evs w' /\
      len evs = 2 /\
      exists more,
        evs = [mk_change 9 foreign_doc 0] ++ more /\
        len more <= Z.max 1 (3 - len [mk_change 9 foreign_doc 0]) /\
        (pulled ending 0%nat one_pending more w' \/
         exists w2, pulled ending 0%nat one_pending more w2 /\
                    next ending 0%nat w2 = Returned None w')).
Proof.
  split.
  - evaluate_as (collect env 0%nat 1 [] one_pending) H.
    do 2 eexists. split; [exact H |].
    exact (collect_extends env 0%nat 1 [] one_pending _ _ H).
  - evaluate_as (collect ending 0%nat 3 [mk_change 9 foreign_doc 0] one_pending) H.
    do 2 eexists. split; [exact H |]. split; [reflexivity |].
    exact (collect_extends ending 0%nat 3 _ one_pending _ _ H).
Defined.

(** Asked for no event, with one pending: the loop still takes it. *)
Lemma collect_single_run :
  0 <= 1 /\
  collect env 0%nat 0 [] one_pending = first_event env 0%nat one_pending /\
  exists ev w', first_event env 0%nat one_pending = Returned [ev] w'.
Proof.
  split; [lia |]. split.
  - apply (collect_single env 0%nat 0 one_pending). lia.
  - do 2 eexists. evaluate.
Defined.

(** A disconnect of five seconds on a quiet collection. *)
Lemma durability_result_shape_run :
  exists r w',
    test_stream_durability env 5 (quiet 10) = Returned r w' /\
    (pre_disconnect_events r = 0 \/ pre_disconnect_events r = 1) /\
    (post_disconnect_events r = 0 \/ post_disconnect_events r = 1) /\
    (d_success r = true <-> post_disconnect_events r = 1) /\
    (error r <> None -> d_success r = false /\ post_disconnect_events r = 0).
Proof.
  evaluate_as (test_stream_durability env 5 (quiet 10)) H.
  do 2 eexists. split; [exact H |].
  exact (durability_result_shape env 5 (quiet 10) _ _ H).
Defined.

(** A negative disconnect duration: [time.sleep] raises before the
    [try] and the error leaves the method.  An interrupt while the stream
    is reopened: it is raised inside the [try] and leaves the method
    too. *)
Lemma durability_raises_iff_run :
  (exists w',
      test_stream_durability env (-1) (quiet 10) = Raised ValueError w') /\
  (exists w',
      test_stream_durability interrupted 5 (quiet 10)
      = Raised KeyboardInterrupt w').
Proof.
  split.
  - eexists.
    apply (proj1 (durability_raises_iff env (-1) (quiet 10) ValueError _)).
    right. do 2 eexists. split; [evaluate |].
    right. eexists. split; [evaluate |].
    right. do 2 eexists. split; [evaluate |].
    right. eexists. split; [evaluate |].
    left. evaluate.
  - eexists.
    apply (proj1 (durability_raises_iff interrupted 5 (quiet 10)
                    KeyboardInterrupt _)).
    right. do 2 eexists. split; [evaluate |].
    right. eexists. split; [evaluate |].
    right. do 2 eexists. split; [evaluate |].
    right. eexists. split; [evaluate |].
    right. eexists. split; [evaluate |]. split; [reflexivity |].
    apply (proj2 (durability_raises_iff interrupted 5 (quiet 10)
                    KeyboardInterrupt _)).
    left. evaluate.
Defined.

(** The slow deployment: the error of scenario A leaves the program.
    An interrupt five seconds into the run, when scenario B reopens its
    stream: raised inside the [try], it leaves the program too. *)
Lemma run_all_tests_raises_iff_run :
  (exists w', run_all_tests env slow = Raised ResumeError w') /\
  (exists w', run_all_tests interrupted (quiet 10) = Raised KeyboardInterrupt w').
Proof.
  split.
  - eexists. apply (run_all_tests_raises_iff env slow).
    right. eexists. split; [evaluate |]. left. evaluate.
  - eexists. apply (run_all_tests_raises_iff interrupted (quiet 10)).
    right. eexists. split; [evaluate |].
    right. do 2 eexists. split; [evaluate |].
    right. do 3 eexists. split; [evaluate |].
    split; [reflexivity | evaluate].
Defined.

(** No iteration asked for on a quiet collection: the method waits for
    ever. *)
Lemma resume_test_waits_run :
  0 <= 0 /\ test_resume_token_persistence env 0 (quiet 10) = Blocked.
Proof.
  split; [lia |].
  evaluate_as (watch env None (quiet 10)) Hw.
  eapply (resume_test_waits env 0 (quiet 10)); [lia | exact Hw | evaluate].
Defined.

(** Two iterations on a collection another client writes to. *)
Lemma resume_test_succeeds_run :
  1 <= 2 /\ responsive shared /\ 0 <= window shared /\
  exists w',
    test_resume_token_persistence env 2 shared =
    Returned {| initial_events := 2; resumed_events := 2; success := true |} w'.
Proof.
  assert (Hr : responsive shared) by (split; reflexivity).
  assert (Hwin : 0 <= window shared) by (simpl; lia).
  split; [lia |]. split; [exact Hr |]. split; [exact Hwin |].
  exact (Behaviour.resume_test_succeeds 2 shared ltac:(lia) Hr Hwin).
Defined.

(** Against three seconds of history: a disconnect of five seconds
    fails to resume, one of two seconds resumes, one of minus one second
    is refused, and one of 2^64 seconds overflows. *)
Lemma durability_by_retention_run :
  responsive short_lived /\
  (exists w',
      test_stream_durability env 5 short_lived =
      Returned {| pre_disconnect_events := 1; post_disconnect_events := 0;
                  d_success := false; error := Some (str ResumeError) |} w') /\
  (exists w',
      test_stream_durability env 2 short_lived =
      Returned {| pre_disconnect_events := 1; post_disconnect_events := 1;
                  d_success := true; error := None |} w') /\
  (exists w',
      test_stream_durability env (-1) short_lived = Raised ValueError w') /\
  (exists w',
      test_stream_durability env (2 ^ 64) short_lived = Raised OverflowError w').
Proof.
  assert (Hr : responsive short_lived) by (split; reflexivity).
  split; [exact Hr |].
  destruct (Behaviour.durability_by_retention 5 short_lived Hr)
    as (_ & _ & _ & Hlong).
  destruct (Behaviour.durability_by_retention 2 short_lived Hr)
    as (_ & _ & Hshort & _).
  destruct (Behaviour.durability_by_retention (-1) short_lived Hr)
    as (_ & Hneg & _).
  destruct (Behaviour.durability_by_retention (2 ^ 64) short_lived Hr)
    as (Hover & _).
  split; [apply Hlong; unfold sleep_limit; simpl; lia |].
  split; [apply Hshort; unfold sleep_limit; simpl; lia |].
  split; [apply Hneg; unfold sleep_limit; lia |].
  apply Hover. vm_compute. reflexivity.
Defined.

(** Two iterations on a quiet collection: the buffers are the inserts. *)
Lemma resume_buffers_are_the_inserts_run :
  1 <= 2 /\ responsive (quiet 10) /\ others (quiet 10) = [] /\
  exists evA evB w',
    resume_token_events env 2 (quiet 10) = Returned (evA, evB) w' /\
    map full_document evA = [initial_doc 0 0; initial_doc 1 0] /\
    map full_document evB = [resumed_doc 0 0; resumed_doc 1 0] /\
    (forall e, In e evB -> ~ In e evA) /\
    documents w' = [initial_doc 0 0; initial_doc 1 0;
                    resumed_doc 0 0; resumed_doc 1 0].
Proof.
  split; [lia |]. split; [apply responsive_quiet |]. split; [reflexivity |].
  evaluate_as (resume_token_events env 2 (quiet 10)) H.
  do 3 eexists. split; [exact H |].
  exact (Behaviour.resume_buffers_are_the_inserts 2 (quiet 10) _ _ _
           ltac:(lia) (responsive_quiet 10) eq_refl H).
Defined.

(** The whole program on a collection that already holds data. *)
Lemma run_all_tests_outcome_run :
  responsive used /\ 0 <= window used /\
  exists w',
    run_all_tests env used =
    Returned
      {| resume_token_test :=
           {| initial_events := 5; resumed_events := 5; success := true |};
         durability_test :=
           {| pre_disconnect_events := 1; post_disconnect_events := 1;
              d_success := true; error := None |} |} w'.
Proof.
  assert (Hr : responsive used) by (split; reflexivity).
  assert (Hwin : 0 <= window used) by (simpl; lia).
  split; [exact Hr |]. split; [exact Hwin |].
  exact (Behaviour.run_all_tests_outcome used Hr Hwin).
Defined.

(** The server goes away after the reopening: the reopened stream stays
    open. *)
Lemma reopened_stream_closed_iff_run :
  exists pre tok w1 s wa r w2 c,
    durability_pre env 5 flaky = Returned (pre, tok) w1 /\
    watch env (Some tok) w1 = Returned s wa /\
    test_stream_durability env 5 flaky = Returned r w2 /\
    nth_error (cursors w2) s = Some c /\
    alive c = true /\ error r <> None /\
    (alive c = false <-> error r = None).
Proof.
  evaluate_as (durability_pre env 5 flaky) Hpre.
  match type of Hpre with
  | _ = Returned (?pre, ?tok) ?w1 =>
      evaluate_as (watch env (Some tok) w1) Hw;
      exists pre, tok, w1
  end.
  evaluate_as (test_stream_durability env 5 flaky) Hres.
  match type of Hw with _ = Returned ?s ?wa => exists s, wa end.
  match type of Hres with _ = Returned ?r ?w2 => exists r, w2 end.
  destruct (Behaviour.reopened_stream_closed_iff 5 flaky _ _ _ _ _ _ _
              Hpre Hw Hres) as (c & Hc & Hiff).
  exists c. split; [exact Hpre |]. split; [exact Hw |]. split; [exact Hres |].
  split; [exact Hc |].
  vm_compute in Hc. injection Hc as <-.
  split; [reflexivity |]. split; [discriminate | exact Hiff].
Defined.

(** On a collection that already holds two documents: a durability run
    that returns and a resume run that raises (the slow deployment) both
    leave them in place, and [setup] removes them. *)
Lemma scenarios_keep_the_collection_run :
  (exists r w',
      test_stream_durability env 5 used = Returned r w' /\
      documents w' = documents used
                     ++ [pre_disconnect_doc 0; post_disconnect_doc 5]) /\
  (exists e w' ext,
      test_resume_token_persistence env 5 (set_documents slow (documents used))
      = Raised e w' /\
      documents w' = documents used ++ ext /\ List.length ext = 5%nat) /\
  (exists w', setup env used = Returned tt w' /\ documents w' = []).
Proof.
  destruct Behaviour.scenarios_keep_the_collection as (HA & HB & Hsetup).
  split; [| split].
  - evaluate_as (test_stream_durability env 5 used) Hrun.
    do 2 eexists. split; [exact Hrun |].
    destruct (HB 5 used _ (or_introl (ex_intro _ _ Hrun))) as [(ext & Hdocs) _].
    vm_compute. reflexivity.
  - evaluate_as (test_resume_token_persistence env 5
                   (set_documents slow (documents used))) Hrun.
    destruct (HA 5 _ _ (or_intror (ex_intro _ _ Hrun))) as [(ext & Hdocs) _].
    do 2 eexists. exists ext. split; [exact Hrun |]. split; [exact Hdocs |].
    apply (f_equal (@List.length doc)) in Hdocs.
    rewrite length_app in Hdocs. simpl in Hdocs. lia.
  - evaluate_as (setup env used) Hrun.
    eexists. split; [exact Hrun |].
    exact (proj1 (Hsetup _ _ Hrun)).
Defined.

(** One iteration on a quiet collection; and no iteration on a server
    that ends a stream with nothing to deliver: both loops end with empty
    buffers and the run reports success. *)
Lemma resume_counts_any_iterations_run :
  (exists r w',
      test_resume_token_persistence env 1 (quiet 10) = Returned r w' /\
      0 <= initial_events r <= Z.max 1 1 /\
      0 <= resumed_events r <= Z.max 1 1 /\
      (success r = true <-> resumed_events r = 1) /\
      (1 <= 0 -> success r = true -> 1 = 0 /\ resumed_events r = 0)) /\
  (exists r w',
      test_resume_token_persistence ending 0 (quiet 10) = Returned r w' /\
      0 <= 0 /\ success r = true /\
      0 <= initial_events r <= Z.max 1 0 /\
      0 <= resumed_events r <= Z.max 1 0 /\
      (success r = true <-> resumed_events r = 0) /\
      (0 <= 0 -> success r = true -> 0 = 0 /\ resumed_events r = 0)).
Proof.
  split.
  - evaluate_as (test_resume_token_persistence env 1 (quiet 10)) H.
    do 2 eexists. split; [exact H |].
    exact (resume_counts_any_iterations env 1 (quiet 10) _ _ H).
  - evaluate_as (test_resume_token_persistence ending 0 (quiet 10)) H.
    do 2 eexists. split; [exact H |]. split; [lia |]. split; [reflexivity |].
    exact (resume_counts_any_iterations ending 0 (quiet 10) _ _ H).
Defined.

(** A disconnect of five seconds on a quiet collection: the two events
    are the two inserts, five seconds apart. *)
Lemma durability_events_are_the_inserts_run :
  responsive (quiet 10) /\ others (quiet 10) = [] /\
  exists pre tok w1 post w2,
    durability_pre env 5 (quiet 10) = Returned (pre, tok) w1 /\
    durability_post_events env tok w1 = Returned post w2 /\
    map full_document pre = [pre_disconnect_doc 0] /\
    map full_document post = [post_disconnect_doc 5] /\
    clock w2 = 5.
Proof.
  split; [apply responsive_quiet |]. split; [reflexivity |].
  evaluate_as (durability_pre env 5 (quiet 10)) Hpre.
  match type of Hpre with
  | _ = Returned (?pre, ?tok) ?w1 =>
      evaluate_as (durability_post_events env tok w1) Hpost;
      exists pre, tok, w1
  end.
  do 2 eexists. split; [exact Hpre |]. split; [exact Hpost |].
  exact (Behaviour.durability_events_are_the_inserts 5 (quiet 10) _ _ _ _ _
           (responsive_quiet 10) eq_refl Hpre Hpost).
Defined.

End FurtherRuns.
